(** * Door detector: a shallow embedding of the measurement pipeline

    The Python package [door_detector] turns rasterised floor-plan pages
    into calibrated door measurements.  This development embeds the parts
    of it that the specification talks about:

    - [measurement.py]     ([Measurement]):    [door_width_mm],
                                                [refine_door_measurement];
    - [scale_detection.py] ([ScaleDetection]): the scale-text patterns,
                                                the graphic scale bar,
                                                [convert_to_mm], [detect_scale];
    - [door_detection.py]  ([DoorDetection]):  [_box_overlap] and the greedy
                                                suppression loop of
                                                [TemplateDoorDetector.detect];
    - [preprocessing.py]   ([Preprocessing]):  [deskew_image];
    - [reporting.py]       ([Reporting]):      the tabular projections;
    - [cli.py]             ([Cli]):            the page loop of [process_pdf].

    Conventions.
    - Python [int] is [Z].  A finite Python [float] is the rational number
      it denotes.  In [measurement.py], [preprocessing.py] and
      [reporting.py] every floating-point operation is the exact operation
      followed by [PyNum.b64], the rounding of IEEE 754 binary64 (to
      nearest, ties to even, 53-bit significand, gradual underflow), and
      [round(x, 1)] is [PyNum.round1].  Infinities and NaN are not
      represented: a result at or beyond the overflow threshold lies
      outside the model, and the statements on stored widths carry
      [PyNum.finite] for the numbers they speak of.
    - In [scale_detection.py] and in the overlap test of
      [door_detection.py] numbers are exact rationals: the statements
      there are about which notation or unit is read and about quotients
      of integer areas.
    - A Python [dict] with string keys is a [gmap string pyval].
    - A raised exception is the [Raise] branch of [result].
    - OpenCV, NumPy and Tesseract calls are not part of the repository; they
      enter as fields of an interface or as section variables. *)

From Stdlib Require Import ZArith QArith Qround Qabs Qpower Lia Lqa Bool.
From Stdlib Require Import Strings.Ascii Sorting.Sorted.
From stdpp Require Import base option list strings gmap.

Local Open Scope Z_scope.

(** ** Python values, exceptions *)

Inductive exn : Type :=
  | ZeroDivisionError
  | KeyError
  | FileNotFoundError
  | CvError.

Inductive result (A : Type) : Type :=
  | Ok (a : A)
  | Raise (e : exn).
Arguments Ok {A} a.
Arguments Raise {A} e.

Definition bind {A B} (m : result A) (k : A -> result B) : result B :=
  match m with
  | Ok a => k a
  | Raise e => Raise e
  end.

Notation "'let*' x ':=' m 'in' k" := (bind m (fun x => k))
  (at level 10, x pattern, m at level 100, k at level 200).

Definition bbox : Type := (Z * Z * Z * Z)%type.

Inductive pyval : Type :=
  | VInt (z : Z)
  | VFloat (q : Q)
  | VBool (b : bool)
  | VStr (s : string)
  | VBox (b : bbox).

(** A door record is the dictionary the detectors build and the later
    stages copy and extend. *)
Abbreviation door_dict := (gmap string pyval).

(** ** Python numerics *)

Module PyNum.

(** [x / y]: raises [ZeroDivisionError] on a zero divisor. *)
Definition truediv (x y : Q) : result Q :=
  if Qeq_bool y 0 then Raise ZeroDivisionError else Ok (x / y)%Q.

(** Round half to even, to the nearest integer. *)
Definition round_half_even (q : Q) : Z :=
  let f := Qfloor q in
  let r := (q - inject_Z f)%Q in
  match (r ?= 1 # 2)%Q with
  | Lt => f
  | Gt => f + 1
  | Eq => if Z.even f then f else f + 1
  end.

(** The binary exponent of a positive rational: [ilog2 q] is the integer
    [k] with [2 ^ k <= q < 2 ^ (k + 1)]. *)
Definition ilog2 (q : Q) : Z :=
  let k := Z.log2 (Z.abs (Qnum q)) - Z.log2 (Z.pos (Qden q)) in
  if Qle_bool (2 ^ k) (Qabs q) then k else k - 1.

(** The exponent of the last place of the binary64 numbers around [q]:
    53 significant bits, and no finer than [2 ^ -1074]. *)
Definition exponent (q : Q) : Z := Z.max (ilog2 q - 52) (-1074).

(** The multiple of [2 ^ e] nearest to [q], ties to the even multiple. *)
Definition grid (e : Z) (q : Q) : Q :=
  (inject_Z (round_half_even (q / 2 ^ e)) * 2 ^ e)%Q.

(** The binary64 number nearest to a positive [q], ties to the even
    significand. *)
Definition nearest (q : Q) : Q := grid (exponent q) q.

(** The rounding every binary64 operation ends with. *)
Definition b64 (q : Q) : Q :=
  match (q ?= 0)%Q with
  | Eq => 0%Q
  | Gt => nearest q
  | Lt => (- nearest (- q))%Q
  end.



(** An [int] operand of a float operation. *)
Definition of_int (z : Z) : Q := b64 (inject_Z z).


(** [x * y], [x + y], [x - y] on floats. *)
Definition mul (x y : Q) : Q := b64 (x * y).
Definition add (x y : Q) : Q := b64 (x + y).
Definition sub (x y : Q) : Q := b64 (x - y).

(** [round(x, 1)] on a float: the decimal with one place nearest to [x],
    ties to even, and of that the nearest binary64 number. *)
Definition round1 (q : Q) : Q :=
  b64 (inject_Z (round_half_even (q * 10)) / 10).

(** [x >= y] on floats. *)
Definition ge (x y : Q) : bool := Qle_bool y x.

(** [x % m] on floats for a positive modulus: the remainder with the
    sign of [m]. *)
Definition fmod (x m : Q) : Q := b64 (x - m * inject_Z (Qfloor (x / m))).

(** A number with at most one decimal. *)
Definition one_decimal (t : Q) : Prop := exists n : Z, (t * 10 == inject_Z n)%Q.

(** A number binary64 holds exactly. *)
Definition representable (t : Q) : Prop := (b64 t == t)%Q.

(** [int(x)] on a float: truncation towards zero. *)
Definition int (q : Q) : Z := Z.quot (Qnum q) (Z.pos (Qden q)).

(** [x > y] is [lt y x]. *)
Definition lt (x y : Q) : bool := negb (Qle_bool y x).

End PyNum.

(** ** measurement.py *)

Module Measurement.

(** Lines 27-34: the leaf width in pixels, the narrow side of the box. *)
Definition leaf_width_px (b : bbox) : Z :=
  let '(x1, y1, x2, y2) := b in
  let width_px := Z.abs (x2 - x1) in
  let height_px := Z.abs (y2 - y1) in
  Z.min width_px height_px.

(** [door_width_mm(door, mm_per_px, min_width_mm)]. *)
Definition door_width_mm (door : door_dict) (mm_per_px min_width_mm : Q)
  : result door_dict :=
  match door !! "bbox" with
  | Some (VBox b) =>
      let width_mm := PyNum.mul (PyNum.of_int (leaf_width_px b)) mm_per_px in
      Ok (<["is_compliant" := VBool (PyNum.ge width_mm min_width_mm)]>
            (<["width_mm" := VFloat (PyNum.round1 width_mm)]> door))
  | _ => Raise KeyError
  end.

(** The OpenCV and NumPy operations [refine_door_measurement] calls.
    They are total on the 8-bit pages [cv2.imread] yields. *)
Record Shape : Type := {
  rows : Z;
  cols : Z;
  channels : option Z   (* [None]: a two-dimensional (grey) array *)
}.

Record Moments : Type := { mu20 : Q; mu02 : Q; mu11 : Q }.

Class Vision : Type := {
  image : Type;
  contour : Type;
  shape : image -> Shape;
  (* image[y1:y2, x1:x2] *)
  crop : image -> Z -> Z -> Z -> Z -> image;
  (* cv2.cvtColor(_, cv2.COLOR_BGR2GRAY) *)
  cvtColor_gray : image -> image;
  (* cv2.adaptiveThreshold(_, 255, GAUSSIAN_C, THRESH_BINARY_INV, 11, 2) *)
  adaptiveThreshold : image -> image;
  (* cv2.erode(_, np.ones((3, 3)), iterations=1) *)
  erode : image -> image;
  moments : image -> Moments;
  (* cv2.findContours(_, RETR_EXTERNAL, CHAIN_APPROX_SIMPLE)[0] *)
  findContours : image -> list contour;
  contourArea : contour -> Q;
  (* cv2.minAreaRect(_)[1] *)
  minAreaRect_size : contour -> Q * Q;
  arctan2 : Q -> Q -> Q;
  degrees : Q -> Q
}.

(** [ndarray.size]. *)
Definition size (s : Shape) : Z :=
  rows s * cols s * default 1 (channels s).

(** [max(xs, key=f)] on a non-empty list: the first element whose key
    is maximal. *)
Fixpoint max_by {A} (f : A -> Q) (best : A) (xs : list A) : A :=
  match xs with
  | [] => best
  | x :: xs' =>
      if Qlt_le_dec (f best) (f x) then max_by f x xs' else max_by f best xs'
  end.

Section Refine.
Context `{V : Vision}.

(** Lines 96-118: orientation and pixel width of a non-degenerate
    region. *)
Definition orientation_deg (m : Moments) : Q :=
  let angle :=
    PyNum.mul (1 # 2)
      (arctan2 (PyNum.mul 2 (mu11 m)) (PyNum.sub (mu20 m) (mu02 m))) in
  PyNum.fmod (degrees angle) 180.

Definition oblique (angle_deg : Q) : bool :=
  (PyNum.lt 15 angle_deg && PyNum.lt angle_deg 75)
  || (PyNum.lt 105 angle_deg && PyNum.lt angle_deg 165).

Definition refined_width_px (door_region thresh : image) (angle_deg : Q) : Q :=
  let width_px :=
    if PyNum.lt (Qabs (PyNum.sub angle_deg 90)) 45
    then inject_Z (cols (shape door_region))
    else inject_Z (rows (shape door_region)) in
  if oblique angle_deg then
    match findContours thresh with
    | c :: cs =>
        let rect := minAreaRect_size (max_by contourArea c cs) in
        if PyNum.lt (snd rect) (fst rect) then snd rect else fst rect
    | [] => width_px
    end
  else width_px.

(** Line 70: [image[y1:y2, x1:x2]]. *)
Definition door_region (img : image) (b : bbox) : image :=
  let '(x1, y1, x2, y2) := b in crop img y1 y2 x1 x2.

(** Lines 76-77. *)
Definition to_gray (region : image) : image :=
  match channels (shape region) with
  | Some _ => cvtColor_gray region
  | None => region
  end.

(** Lines 118-126: the record of the refined path.  [width_px] is an
    [int] (a side of the crop) or a float (a side of the rotated
    rectangle); the product is a float product either way. *)
Definition refined_record (door : door_dict) (width_px angle_deg : Q)
    (mm_per_px min_width_mm : Q) : door_dict :=
  let width_mm := PyNum.mul (PyNum.b64 width_px) mm_per_px in
  <["angle_deg" := VFloat (PyNum.round1 angle_deg)]>
    (<["is_compliant" := VBool (PyNum.ge width_mm min_width_mm)]>
       (<["width_mm" := VFloat (PyNum.round1 width_mm)]> door)).

(** [refine_door_measurement(image, door, mm_per_px, min_width_mm)]. *)
Definition refine_door_measurement (img : image) (door : door_dict)
    (mm_per_px min_width_mm : Q) : result door_dict :=
  match door !! "bbox" with
  | Some (VBox b) =>
      let door_region := door_region img b in
      if size (shape door_region) =? 0 then
        door_width_mm door mm_per_px min_width_mm
      else
        let door_region := to_gray door_region in
        let thresh := adaptiveThreshold door_region in
        let eroded := erode thresh in
        let m := moments eroded in
        if Qeq_bool (mu20 m + mu02 m) 0 then
          door_width_mm door mm_per_px min_width_mm
        else
          let angle_deg := orientation_deg m in
          let width_px := refined_width_px door_region thresh angle_deg in
          Ok (refined_record door width_px angle_deg mm_per_px min_width_mm)
  | _ => Raise KeyError
  end.

(** The central moments line 91 computes for the box [b]. *)
Definition region_moments (img : image) (b : bbox) : Moments :=
  moments (erode (adaptiveThreshold (to_gray (door_region img b)))).

(** The crop is empty (line 71). *)
Definition region_empty (img : image) (b : bbox) : Prop :=
  size (shape (door_region img b)) = 0.

(** The second-order central moments both vanish. *)
Definition moments_vanish (img : image) (b : bbox) : Prop :=
  (mu20 (region_moments img b) == 0)%Q /\ (mu02 (region_moments img b) == 0)%Q.

(** The test of line 92. *)
Definition moments_sum_zero (img : image) (b : bbox) : bool :=
  Qeq_bool (mu20 (region_moments img b) + mu02 (region_moments img b)) 0.

(** The record of the refined path for the box [b]. *)
Definition refined_measurement (img : image) (door : door_dict) (b : bbox)
    (s t : Q) : door_dict :=
  let region := to_gray (door_region img b) in
  let angle_deg := orientation_deg (region_moments img b) in
  refined_record door
    (refined_width_px region (adaptiveThreshold region) angle_deg)
    angle_deg s t.

End Refine.

(** What a measurement record holds for an unrounded width [w] (the
    float product of lines 37 and 118) against the threshold [t]. *)
Definition records_width (r : door_dict) (w t : Q) : Prop :=
  r !! "width_mm" = Some (VFloat (PyNum.round1 w))
  /\ r !! "is_compliant" = Some (VBool (PyNum.ge w t)).


End Measurement.

(** ** scale_detection.py *)

Module ScaleDetection.

(** The recognised text is taken to be ASCII. *)
Definition dquote : ascii := "034"%char.
Definition squote : ascii := "'"%char.

(** [\d] *)
Definition is_digit (c : ascii) : bool :=
  let n := N_of_ascii c in (48 <=? n)%N && (n <=? 57)%N.

(** [\s]: tab, line feed, vertical tab, form feed, carriage return,
    the four separators 28-31 and the space. *)
Definition is_space (c : ascii) : bool :=
  let n := N_of_ascii c in
  ((9 <=? n)%N && (n <=? 13)%N) || ((28 <=? n)%N && (n <=? 32)%N).

Definition is_quote (c : ascii) : bool :=
  Ascii.eqb c dquote || Ascii.eqb c squote.

(** The longest prefix whose characters satisfy [p], and the rest. *)
Fixpoint span (p : ascii -> bool) (s : list ascii) : list ascii * list ascii :=
  match s with
  | c :: s' =>
      if p c then let '(a, b) := span p s' in (c :: a, b) else ([], s)
  | [] => ([], [])
  end.

(** [\d+]: a non-empty maximal run of digits. *)
Definition digits1 (s : list ascii) : option (list ascii * list ascii) :=
  match span is_digit s with
  | ([], _) => None
  | (ds, rest) => Some (ds, rest)
  end.

(** A literal character. *)
Definition lit (p : ascii -> bool) (s : list ascii) : option (list ascii) :=
  match s with
  | c :: s' => if p c then Some s' else None
  | [] => None
  end.

(** [\s*] *)
Definition spaces (s : list ascii) : list ascii := snd (span is_space s).

(** [re.search]: the match at the leftmost position that has one. *)
Fixpoint search {A} (at_pos : list ascii -> option A) (s : list ascii)
  : option A :=
  match at_pos s with
  | Some m => Some m
  | None =>
      match s with
      | _ :: s' => search at_pos s'
      | [] => None
      end
  end.

(** In the three scale patterns and in the label pattern, the character
    classes of adjacent items are disjoint, so at a given position the
    only way to match is the greedy one, which the matchers below take. *)

(** [1\s*[:]\s*(\d+)]; the result is group 1. *)
Definition ratio_at (s : list ascii) : option (list ascii) :=
  s1 ← lit (Ascii.eqb "1"%char) s;
  s2 ← lit (Ascii.eqb ":"%char) (spaces s1);
  fst <$> digits1 (spaces s2).

(** [(\d+)/(\d+)[dquote squote]\s*=\s*(\d+)[squote dquote]];
    the result is groups 1, 2, 3. *)
Definition feet_at (s : list ascii)
  : option (list ascii * list ascii * list ascii) :=
  '(g1, s1) ← digits1 s;
  s2 ← lit (Ascii.eqb "/"%char) s1;
  '(g2, s3) ← digits1 s2;
  s4 ← lit is_quote s3;
  s5 ← lit (Ascii.eqb "="%char) (spaces s4);
  '(g3, s6) ← digits1 (spaces s5);
  _ ← lit is_quote s6;
  Some (g1, g2, g3).

(** [1\s*/\s*(\d+)]; the result is group 1. *)
Definition fraction_at (s : list ascii) : option (list ascii) :=
  s1 ← lit (Ascii.eqb "1"%char) s;
  s2 ← lit (Ascii.eqb "/"%char) (spaces s1);
  fst <$> digits1 (spaces s2).

(** The value of a digit string. *)
Definition digit_value (c : ascii) : Z := Z.of_N (N_of_ascii c) - 48.

Definition int_of_digits (ds : list ascii) : Z :=
  fold_left (fun acc c => 10 * acc + digit_value c) ds 0.

(** [float(s)] for [s] of the form [\d+] or [\d+\.\d+]. *)
Definition float_of_text (s : list ascii) : Q :=
  let '(ip, rest) := span is_digit s in
  match rest with
  | "."%char :: fp =>
      (inject_Z (int_of_digits (ip ++ fp))
       / inject_Z (10 ^ Z.of_nat (length fp)))%Q
  | _ => inject_Z (int_of_digits ip)
  end.

(** Lines 38-60 of [find_numeric_scale_text]: the recognised text to the
    scale factor. *)
Definition scale_of_text (text : list ascii) : result (option Q) :=
  match search ratio_at text with
  | Some g1 =>
      let* r := PyNum.truediv 1 (float_of_text g1) in Ok (Some r)
  | None =>
      match search feet_at text with
      | Some (g1, g2, g3) =>
          let numerator := float_of_text g1 in
          let denominator := float_of_text g2 in
          let feet := float_of_text g3 in
          let* inch_scale := PyNum.truediv numerator denominator in
          let* feet_in_drawing_units :=
            PyNum.truediv (feet * 12) inch_scale in
          let* r := PyNum.truediv 1 feet_in_drawing_units in
          Ok (Some r)
      | None =>
          match search fraction_at text with
          | Some g1 =>
              let* r := PyNum.truediv 1 (float_of_text g1) in Ok (Some r)
          | None => Ok None
          end
      end
  end.

(** *** The graphic scale bar *)

(** One alternative of [(m|mm|cm|ft|squote)]: a literal prefix. *)
Fixpoint strip_prefix (u s : list ascii) : option (list ascii) :=
  match u, s with
  | [], _ => Some s
  | a :: u', c :: s' => if Ascii.eqb a c then strip_prefix u' s' else None
  | _ :: _, [] => None
  end.

(** An alternation of literals: the first alternative that matches. *)
Fixpoint first_alt (alts : list string) (s : list ascii)
  : option (string * list ascii) :=
  match alts with
  | [] => None
  | u :: alts' =>
      match strip_prefix (String.list_ascii_of_string u) s with
      | Some rest => Some (u, rest)
      | None => first_alt alts' s
      end
  end.

Definition unit_alternatives : list string :=
  ["m"; "mm"; "cm"; "ft"; "'"]%string.

(** [(\d+(?:\.\d+)?)\s*(m|mm|cm|ft|squote)] at a position: groups 1
    and 2 and the text after the match. *)
Definition label_at (s : list ascii)
  : option (list ascii * string * list ascii) :=
  '(ip, s1) ← digits1 s;
  let '(num, s2) :=
    match s1 with
    | "."%char :: s1' =>
        match digits1 s1' with
        | Some (fp, r) => (ip ++ "."%char :: fp, r)
        | None => (ip, s1)
        end
    | _ => (ip, s1)
    end in
  '(u, rest) ← first_alt unit_alternatives (spaces s2);
  Some (num, u, rest).

(** [re.findall]: the matches from left to right, each search resuming
    where the previous match ended; [skip] counts the characters of the
    current match still to pass. *)
Fixpoint findall_from (skip : nat) (s : list ascii)
  : list (list ascii * string) :=
  match skip, s with
  | S k, _ :: s' => findall_from k s'
  | S _, [] => []
  | O, [] => []
  | O, _ :: s' =>
      match label_at s with
      | Some (num, u, rest) =>
          (num, u) :: findall_from (length s - length rest - 1) s'
      | None => findall_from O s'
      end
  end.

Definition findall_labels (text : list ascii) : list (list ascii * string) :=
  findall_from O text.

(** [convert_to_mm(value, unit)]. *)
Definition convert_to_mm (value : Q) (unit : string) : option Q :=
  if String.eqb unit "mm" then Some value
  else if String.eqb unit "cm" then Some (value * 10)%Q
  else if String.eqb unit "m" then Some (value * 1000)%Q
  else if String.eqb unit "ft" || String.eqb unit "'"
       then Some (value * (3048 # 10))%Q
  else if String.eqb unit "in" || String.eqb unit (String dquote EmptyString)
       then Some (value * (254 # 10))%Q
  else None.

Definition hline : Type := (Z * Z * Z * Z * Z)%type.

Definition hline_length (l : hline) : Z := snd l.

(** Lines 96-104: the near-horizontal segments longer than 50 pixels. *)
Fixpoint horizontal_lines (lines : list bbox) : list hline :=
  match lines with
  | [] => []
  | (x1, y1, x2, y2) :: rest =>
      if Z.abs (y2 - y1) <? 5 then
        let length := Z.abs (x2 - x1) in
        if 50 <? length
        then (x1, y1, x2, y2, length) :: horizontal_lines rest
        else horizontal_lines rest
      else horizontal_lines rest
  end.

(** [list.sort(key=lambda x: x[4], reverse=True)]: stable, longest
    first. *)
Fixpoint insert_desc (x : hline) (l : list hline) : list hline :=
  match l with
  | [] => [x]
  | y :: l' =>
      if hline_length y <=? hline_length x
      then x :: l
      else y :: insert_desc x l'
  end.

Definition sort_desc (l : list hline) : list hline :=
  foldr insert_desc [] l.

(** The scale a band text gives for a line of [length] pixels
    (lines 130-149); [None] when the loop goes on to the next line. *)
Definition scale_of_band (text : list ascii) (length : Z) : option Q :=
  let matches := findall_labels text in
  match matches with
  | first :: _ :: _ =>
      let '(first_val, first_unit) := first in
      let '(last_val, last_unit) := List.last matches first in
      match convert_to_mm (float_of_text first_val) first_unit,
            convert_to_mm (float_of_text last_val) last_unit with
      | Some first_mm, Some last_mm =>
          let px_distance := length in
          let mm_distance := Qabs (last_mm - first_mm) in
          if PyNum.lt 0 mm_distance
          then Some (mm_distance / inject_Z px_distance)%Q
          else None
      | _, _ => None
      end
  | _ => None
  end.

Section Page.
(** The page, and the library calls made on it. *)
Variable image : Type.
(* pytesseract.image_to_string on the Otsu-binarised page, psm 6 *)
Variable page_text : image -> list ascii.
(* cv2.HoughLinesP on the Canny edges; None when it finds no line *)
Variable hough_lines_p : image -> option (list bbox).
(* the (height, width) of the grey page *)
Variable gray_shape : image -> Z * Z.
(* pytesseract.image_to_string on gray[y0:y1, x0:x1], oem 1, psm 6 *)
Variable band_text : image -> Z -> Z -> Z -> Z -> list ascii.

(** [find_numeric_scale_text(image)] on a loaded page. *)
Definition find_numeric_scale_text (img : image) : result (option Q) :=
  scale_of_text (page_text img).

(** The number of elements of [gray[y0:y1, x0:x1]] for non-negative
    bounds. *)
Definition slice_size (img : image) (y0 y1 x0 x1 : Z) : Z :=
  let '(h, w) := gray_shape img in
  Z.max 0 (Z.min y1 h - Z.min y0 h) * Z.max 0 (Z.min x1 w - Z.min x0 w).

(** The loop of lines 113-149 over the candidates. *)
Fixpoint scan_candidates (img : image) (cands : list hline) : option Q :=
  match cands with
  | [] => None
  | (x1, y1, x2, y2, length) :: rest =>
      let text_region_y := Z.max 0 (y1 - 20) in
      let text_region_height := 40 in
      let text_region_width := length + 40 in
      let text_region_x := Z.max 0 (x1 - 20) in
      let y_end := text_region_y + text_region_height in
      let x_end := text_region_x + text_region_width in
      if slice_size img text_region_y y_end text_region_x x_end =? 0 then
        scan_candidates img rest
      else
        let text := band_text img text_region_y y_end text_region_x x_end in
        match scale_of_band text length with
        | Some sc => Some sc
        | None => scan_candidates img rest
        end
  end.

(** [find_graphic_scale_bar(image)] on a loaded page. *)
Definition find_graphic_scale_bar (img : image) : option Q :=
  match hough_lines_p img with
  | None => None
  | Some lines =>
      match horizontal_lines lines with
      | [] => None
      | hl => scan_candidates img (take 5 (sort_desc hl))
      end
  end.

(** [detect_scale(image)]. *)
Definition detect_scale (img : image) : result (option Q) :=
  let* text_scale := find_numeric_scale_text img in
  match text_scale with
  | Some sc => Ok (Some sc)
  | None =>
      match find_graphic_scale_bar img with
      | Some sc => Ok (Some sc)
      | None => Ok None
      end
  end.
End Page.

(** *** Vocabulary for statements about texts *)

Definition text_of (s : string) : list ascii := String.list_ascii_of_string s.

(** The next character, if any, is outside the class [p]. *)
Definition stops (p : ascii -> bool) (s : list ascii) : Prop :=
  match s with
  | [] => True
  | c :: _ => p c = false
  end.

(** A ratio written out: [1], blanks, a colon, blanks, the digits [ds],
    then something that is not a digit. *)
Definition ratio_text (ws1 ws2 ds post : list ascii) : list ascii :=
  "1"%char :: ws1 ++ ":"%char :: ws2 ++ ds ++ post.

(** The text [1/4in = 1ft-0in] in the drawing's notation. *)
Definition quarter_inch_per (feet : string) : list ascii :=
  text_of "Scale 1/4" ++ dquote :: text_of " = " ++ text_of feet
    ++ squote :: text_of "-0" ++ [dquote].

(** A text on which a division of [find_numeric_scale_text] has a zero
    divisor. *)
Definition zero_divisor (text : list ascii) : Prop :=
  (exists g1, search ratio_at text = Some g1 /\ (float_of_text g1 == 0)%Q)
  \/ (search ratio_at text = None
      /\ exists a b f, search feet_at text = Some (a, b, f)
           /\ ((float_of_text a == 0)%Q \/ (float_of_text b == 0)%Q
               \/ (float_of_text f == 0)%Q))
  \/ (search ratio_at text = None /\ search feet_at text = None
      /\ exists g1, search fraction_at text = Some g1
                    /\ (float_of_text g1 == 0)%Q).

(** A non-empty string of digits. *)
Definition numeral (g : list ascii) : Prop :=
  g <> [] /\ Forall (fun c => is_digit c = true) g.

(** The order of the candidates: the longer segment first. *)
Definition longer_first (a b : hline) : Prop :=
  hline_length b <= hline_length a.

(** [h] is a segment of [lines] that [horizontal_lines] keeps. *)
Definition kept_segment (lines : list bbox) (h : hline) : Prop :=
  exists x1 y1 x2 y2,
    (x1, y1, x2, y2) ∈ lines
    /\ Z.abs (y2 - y1) < 5
    /\ 50 < Z.abs (x2 - x1)
    /\ h = (x1, y1, x2, y2, Z.abs (x2 - x1)).

End ScaleDetection.

(** ** door_detection.py *)

Module DoorDetection.

(** An entry of the list [detect] returns: the dictionary with the keys
    [bbox] and [confidence]. *)
Record candidate : Type := {
  c_bbox : bbox;
  c_confidence : Q
}.

Definition to_dict (c : candidate) : door_dict :=
  <["confidence" := VFloat (c_confidence c)]> (<["bbox" := VBox (c_bbox c)]> ∅).

(** [TemplateDoorDetector._box_overlap(box1, box2, threshold=0.5)]. *)
Definition _box_overlap (box1 box2 : bbox) : result bool :=
  let '(x1_1, y1_1, x2_1, y2_1) := box1 in
  let '(x1_2, y1_2, x2_2, y2_2) := box2 in
  let x_left := Z.max x1_1 x1_2 in
  let y_top := Z.max y1_1 y1_2 in
  let x_right := Z.min x2_1 x2_2 in
  let y_bottom := Z.min y2_1 y2_2 in
  if (x_right <? x_left) || (y_bottom <? y_top) then Ok false
  else
    let intersection_area := (x_right - x_left) * (y_bottom - y_top) in
    let box1_area := (x2_1 - x1_1) * (y2_1 - y1_1) in
    let box2_area := (x2_2 - x1_2) * (y2_2 - y1_2) in
    let* iou := PyNum.truediv (inject_Z intersection_area)
                  (inject_Z (box1_area + box2_area - intersection_area)) in
    Ok (PyNum.lt (1 # 2) iou).

(** Lines 198-216: one raw hit against the accepted list.  The scan
    stops at the first accepted entry the hit overlaps; a hit that
    overlaps none is appended. *)
Fixpoint merge_hit (new_box : bbox) (match_val : Q) (doors : list candidate)
  : result (list candidate) :=
  match doors with
  | [] => Ok [ {| c_bbox := new_box; c_confidence := match_val |} ]
  | existing :: rest =>
      let* ov := _box_overlap new_box (c_bbox existing) in
      if ov then
        if PyNum.lt (c_confidence existing) match_val
        then Ok ({| c_bbox := new_box; c_confidence := match_val |} :: rest)
        else Ok (existing :: rest)
      else
        let* rest' := merge_hit new_box match_val rest in
        Ok (existing :: rest')
  end.

(** One template at one scale: the size of the resized template and the
    response map [cv2.matchTemplate] returns, as the positions [(x, y)]
    in the order [np.where] lists them, each with [result[y, x]]. *)
Record pass : Type := {
  template_h : Z;
  template_w : Z;
  response : list (Z * Z * Q)
}.

Definition threshold : Q := 6 # 10.

(** [np.where(result >= threshold)]. *)
Definition raw_hits (p : pass) : list (Z * Z * Q) :=
  filter (fun h => Qle_bool threshold (snd h) = true) (response p).

Fixpoint merge_hits (th tw : Z) (hits : list (Z * Z * Q))
    (doors : list candidate) : result (list candidate) :=
  match hits with
  | [] => Ok doors
  | (x1, y1, match_val) :: hits' =>
      let x2 := x1 + tw in
      let y2 := y1 + th in
      let new_box := (x1, y1, x2, y2) in
      let* doors' := merge_hit new_box match_val doors in
      merge_hits th tw hits' doors'
  end.

(** The loops of [TemplateDoorDetector.detect] over the templates and
    scales, on an edge map of [edges_h] rows and [edges_w] columns. *)
Fixpoint detect_passes (edges_h edges_w : Z) (passes : list pass)
    (doors : list candidate) : result (list candidate) :=
  match passes with
  | [] => Ok doors
  | p :: passes' =>
      if (edges_h <? template_h p) || (edges_w <? template_w p)
      then detect_passes edges_h edges_w passes' doors
      else
        let* doors' :=
          merge_hits (template_h p) (template_w p) (raw_hits p) doors in
        detect_passes edges_h edges_w passes' doors'
  end.

Definition detect (edges_h edges_w : Z) (passes : list pass)
  : result (list candidate) :=
  detect_passes edges_h edges_w passes [].

(** Intersection over union, as the specification names it: the area of
    the common rectangle over the area covered by either box. *)
Definition box_area (b : bbox) : Z :=
  let '(x1, y1, x2, y2) := b in (x2 - x1) * (y2 - y1).

Definition inter_area (b1 b2 : bbox) : Z :=
  let '(x1_1, y1_1, x2_1, y2_1) := b1 in
  let '(x1_2, y1_2, x2_2, y2_2) := b2 in
  Z.max 0 (Z.min x2_1 x2_2 - Z.max x1_1 x1_2)
  * Z.max 0 (Z.min y2_1 y2_2 - Z.max y1_1 y1_2).

Definition IoU (b1 b2 : bbox) : Q :=
  (inject_Z (inter_area b1 b2)
   / inject_Z (box_area b1 + box_area b2 - inter_area b1 b2))%Q.

(** Lines 194-199: the box of a hit at [(x1, y1)] for a template of
    [th] rows and [tw] columns. *)
Definition hit_box (th tw x1 y1 : Z) : bbox := (x1, y1, x1 + tw, y1 + th).

Definition hit (b : bbox) (v : Q) : candidate :=
  {| c_bbox := b; c_confidence := v |}.

(** The entry an overlapped candidate becomes: the hit when its score is
    higher, the candidate otherwise. *)
Definition keep_higher (existing : candidate) (b : bbox) (v : Q) : candidate :=
  if PyNum.lt (c_confidence existing) v then hit b v else existing.

(** The data model's condition on a box: [x1 < x2] and [y1 < y2]. *)
Definition well_formed (b : bbox) : Prop :=
  let '(x1, y1, x2, y2) := b in x1 < x2 /\ y1 < y2.

(** The pass [p] is run on an edge map of the given size (line 181). *)
Definition fits (edges_h edges_w : Z) (p : pass) : Prop :=
  template_h p <= edges_h /\ template_w p <= edges_w.

(** The candidate [c] is a raw hit of the pass [p]: the box of the
    resized template at a position whose response is at least 0.6, with
    that response as score. *)
Definition raw_hit_of (p : pass) (c : candidate) : Prop :=
  exists x y v,
    (x, y, v) ∈ response p /\ (threshold <= v)%Q
    /\ c = hit (hit_box (template_h p) (template_w p) x y) v.

End DoorDetection.

(** ** preprocessing.py *)

Module Preprocessing.

(** The Hough angles are carried in degrees: an angle of [theta] radians
    is the rational [t] with [theta = t * pi / 180], so that [np.pi/6]
    reads 30 and [np.pi/2] reads 90. *)

(** Line 72: the angles kept. *)
Definition qualifies (theta : Q) : bool :=
  PyNum.lt (Qabs theta) 30 || PyNum.lt (Qabs (theta - 90)) 30.

(** [np.argmax]: the first index of a largest entry. *)
Fixpoint argmax_from (i best_i best : Z) (l : list Z) : Z :=
  match l with
  | [] => best_i
  | c :: l' =>
      if best <? c then argmax_from (i + 1) i c l'
      else argmax_from (i + 1) best_i best l'
  end.

Definition argmax (l : list Z) : Z :=
  match l with
  | [] => 0
  | c :: l' => argmax_from 1 0 c l'
  end.

(** [np.pi]: the binary64 number nearest to pi. *)
Definition pi : Q := 884279719003555 # 281474976710656.

(** Line 82: [dominant_angle_index * np.pi / 180]. *)
Definition dominant_angle (dominant_angle_index : Z) : Q :=
  PyNum.b64 (PyNum.mul (PyNum.of_int dominant_angle_index) pi / 180).

(** Lines 86-89. *)
Definition fold_angle (angle_deg : Q) : Q :=
  if PyNum.lt 45 angle_deg then PyNum.sub 90 angle_deg
  else if PyNum.lt angle_deg (-45) then PyNum.sub (-90) angle_deg
  else angle_deg.

Record Rotation : Type := {
  center : Z * Z;            (* (width // 2, height // 2) *)
  angle : Q;                 (* degrees, scale 1.0 *)
  canvas : Z * Z;            (* (new_width, new_height) *)
  shift : Q * Q;             (* added to M[0, 2] and M[1, 2] *)
  border : Z * Z * Z         (* borderValue, BORDER_CONSTANT *)
}.

Section Deskew.
Variable image : Type.
(* cv2.HoughLines on the Canny edges of the grey page, as (rho, theta) *)
Variable hough_lines : image -> option (list (Q * Q)).
(* np.histogram(angles, bins=180)[0]: the counts of the 180 bins *)
Variable histogram : list Q -> list Z.
(* np.degrees *)
Variable degrees : Q -> Q.
(* image.shape[:2] *)
Variable shape_hw : image -> Z * Z.
(* |cos| and |sin| of an angle in degrees: |M[0,0]| and |M[0,1]| *)
Variable abs_cos abs_sin : Q -> Q.
(* cv2.warpAffine of the page by the matrix the record describes *)
Variable warpAffine : image -> Rotation -> image.

Definition kept_angles (lines : list (Q * Q)) : list Q :=
  filter (fun theta => qualifies theta = true) (map snd lines).

(** Lines 80-92: from the kept angles to the rotation angle. *)
Definition rotate_angle_of (angles : list Q) : Q :=
  let angle_bins := histogram angles in
  let dominant_angle_index := argmax angle_bins in
  fold_angle (degrees (dominant_angle dominant_angle_index)).

(** Lines 95-115. *)
Definition rotation_for (img : image) (rotate_angle : Q) : Rotation :=
  let '(height, width) := shape_hw img in
  let center := (width / 2, height / 2) in
  let cos := abs_cos rotate_angle in
  let sin := abs_sin rotate_angle in
  let new_width :=
    PyNum.int (PyNum.add (PyNum.mul (PyNum.of_int height) sin)
                         (PyNum.mul (PyNum.of_int width) cos)) in
  let new_height :=
    PyNum.int (PyNum.add (PyNum.mul (PyNum.of_int height) cos)
                         (PyNum.mul (PyNum.of_int width) sin)) in
  {| center := center;
     angle := rotate_angle;
     canvas := (new_width, new_height);
     shift := (PyNum.sub (PyNum.b64 (inject_Z new_width / 2))
                         (PyNum.of_int (fst center)),
               PyNum.sub (PyNum.b64 (inject_Z new_height / 2))
                         (PyNum.of_int (snd center)));
     border := (255, 255, 255) |}.

(** [deskew_image(image)]. *)
Definition deskew_image (img : image) : image * Q :=
  match hough_lines img with
  | None | Some [] => (img, 0%Q)
  | Some lines =>
      match kept_angles lines with
      | [] => (img, 0%Q)
      | angles =>
          let rotate_angle := rotate_angle_of angles in
          (warpAffine img (rotation_for img rotate_angle), rotate_angle)
      end
  end.
End Deskew.

(** The counts [np.histogram] returns for 180 bins when one value lies
    in the first bin and two lie in the last. *)
Definition ends_counts : list Z := 1 :: repeat 0 178 ++ [2].

End Preprocessing.

(** ** reporting.py *)

Module Reporting.

(** [dict.get(key, default)]. *)
Definition get (d : door_dict) (key : string) (dflt : pyval) : pyval :=
  default dflt (d !! key).

(** [door['bbox'][i]] for [i] in 0..3. *)
Definition bbox_coord (d : door_dict) (i : nat) : result Z :=
  match d !! "bbox" with
  | Some (VBox (x1, y1, x2, y2)) =>
      Ok (match i with O => x1 | 1%nat => y1 | 2%nat => x2 | _ => y2 end)
  | _ => Raise KeyError
  end.

(** The row [create_csv_report] writes for a door, under the field names
    [page, x, y, width_mm, angle_deg, is_compliant]. *)
Record csv_row : Type := {
  row_page : pyval;
  row_x : Z;
  row_y : Z;
  row_width_mm : pyval;
  row_angle_deg : pyval;
  row_is_compliant : pyval
}.

Definition csv_row_of (door : door_dict) : result csv_row :=
  let* x := bbox_coord door 0 in
  let* y := bbox_coord door 1 in
  Ok {| row_page := get door "page" (VStr EmptyString);
        row_x := x;
        row_y := y;
        row_width_mm := get door "width_mm" (VInt 0);
        row_angle_deg := get door "angle_deg" (VInt 0);
        row_is_compliant := get door "is_compliant" (VBool false) |}.

Fixpoint map_result {A B} (f : A -> result B) (l : list A) : result (list B) :=
  match l with
  | [] => Ok []
  | a :: l' =>
      let* b := f a in
      let* bs := map_result f l' in
      Ok (b :: bs)
  end.

(** The rows of [create_csv_report(doors, ...)] after the header. *)
Definition create_csv_report (doors : list door_dict) : result (list csv_row) :=
  map_result csv_row_of doors.

(** A record of [create_summary_dataframe]. *)
Record summary_record : Type := {
  rec_page : pyval;
  rec_x : Z;
  rec_y : Z;
  rec_width_px : Z;
  rec_height_px : Z;
  rec_width_mm : pyval;
  rec_angle_deg : pyval;
  rec_is_compliant : pyval;
  rec_confidence : pyval
}.

Definition summary_record_of (door : door_dict) : result summary_record :=
  let* x1 := bbox_coord door 0 in
  let* y1 := bbox_coord door 1 in
  let* x2 := bbox_coord door 2 in
  let* y2 := bbox_coord door 3 in
  Ok {| rec_page := get door "page" (VStr EmptyString);
        rec_x := x1;
        rec_y := y1;
        rec_width_px := Z.abs (x2 - x1);
        rec_height_px := Z.abs (y2 - y1);
        rec_width_mm := get door "width_mm" (VInt 0);
        rec_angle_deg := get door "angle_deg" (VInt 0);
        rec_is_compliant := get door "is_compliant" (VBool false);
        rec_confidence := get door "confidence" (VFloat 1) |}.

(** Truth value of a Python value, as [if] and a generator's filter take
    it. *)
Definition truthy (v : pyval) : bool :=
  match v with
  | VBool b => b
  | VInt z => negb (z =? 0)
  | VFloat q => negb (Qeq_bool q 0)
  | VStr s => negb (String.eqb s EmptyString)
  | VBox _ => true
  end.

(** The [summary] block of [create_json_report]. *)
Record summary : Type := {
  total_doors : Z;
  compliant_doors : Z;
  non_compliant_doors : Z;
  compliance_percentage : Q;
  summary_min_width_mm : Q
}.

(** Lines 64-65. *)
Definition count_compliant (doors : list door_dict) : Z :=
  Z.of_nat (length (filter (fun door =>
    truthy (get door "is_compliant" (VBool false)) = true) doors)).

(** Lines 63-75 of [create_json_report]: the summary block of the
    report.  The dump of lines 79-80 is not part of the model: whether
    [json.dump] accepts a record depends on the run-time types of the
    numbers in it. *)
Definition json_summary (doors : list door_dict) (min_width_mm : Q)
  : summary :=
  let total_doors := Z.of_nat (length doors) in
  let compliant_doors := count_compliant doors in
  {| total_doors := total_doors;
     compliant_doors := compliant_doors;
     non_compliant_doors := total_doors - compliant_doors;
     compliance_percentage :=
       if 0 <? total_doors
       then PyNum.round1
              (PyNum.mul
                 (PyNum.b64 (inject_Z compliant_doors / inject_Z total_doors))
                 100)
       else 0%Q;
     summary_min_width_mm := min_width_mm |}.

End Reporting.

(** ** cli.py *)

Module Cli.

Import Measurement.

Inductive log_event : Type :=
  | WarnNoScale (page_number : Z)    (* Could not detect scale ... Skipping. *)
  | ErrorPage (page_number : Z) (e : exn).

Section Pipeline.
Context `{V : Vision}.
(* cv2.imread: None when the file cannot be read *)
Variable path : Type.
Variable imread : path -> option image.
Variable path_name : path -> string.
(* preprocessing.deskew_image on this page type *)
Variable hough_lines : image -> option (list (Q * Q)).
Variable histogram : list Q -> list Z.
Variable abs_cos abs_sin : Q -> Q.
Variable warpAffine : image -> Preprocessing.Rotation -> image.
(* scale_detection on this page type *)
Variable page_text : image -> list ascii.
Variable hough_lines_p : image -> option (list bbox).
Variable band_text : image -> Z -> Z -> Z -> Z -> list ascii.
(* self.detector.detect *)
Variable detect : image -> result (list door_dict).
(* reporting.create_visual_report *)
Variable create_visual_report : image -> list door_dict -> Q -> result unit.
(* self.min_width_mm *)
Variable min_width_mm : Q.

Definition shape_hw (img : image) : Z * Z :=
  (rows (shape img), cols (shape img)).

Definition deskew_image : image -> image * Q :=
  Preprocessing.deskew_image image hough_lines histogram degrees shape_hw
    abs_cos abs_sin warpAffine.

Definition detect_scale : image -> result (option Q) :=
  ScaleDetection.detect_scale image page_text hough_lines_p shape_hw
    band_text.

(** Lines 141-148: the measurement of one door of page [i] (counted
    from 0). *)
Definition measure_door (deskewed : image) (scale : Q) (name : string)
    (i : Z) (door : door_dict) : result door_dict :=
  let* measured := refine_door_measurement deskewed door scale min_width_mm in
  Ok (<["page_number" := VInt (i + 1)]> (<["page" := VStr name]> measured)).

(** The body of the [try] of lines 101-157 for page [i]: [Ok None] is
    the [continue] of line 123, [Ok (Some ds)] the records line 157
    adds, [Raise e] an exception on its way to line 159.  The call of
    [preprocess_image] (line 128) and the debug images feed nothing that
    is returned and are left out. *)
Definition process_page (i : Z) (image_path : path)
  : result (option (list door_dict)) :=
  match imread image_path with
  | None => Raise FileNotFoundError
  | Some img =>
      let '(deskewed, _) := deskew_image img in
      let* scale := detect_scale deskewed in
      match scale with
      | None => Ok None
      | Some scale =>
          let* doors := detect deskewed in
          let* measured_doors :=
            Reporting.map_result
              (measure_door deskewed scale (path_name image_path) i) doors in
          let* _ := create_visual_report deskewed measured_doors min_width_mm in
          Ok (Some measured_doors)
      end
  end.

(** The page loop of [process_pdf], from page index [i] on: the records
    gathered in [all_doors] and the warnings and errors logged. *)
Fixpoint process_pages (i : Z) (image_paths : list path)
    (all_doors : list door_dict) (log : list log_event)
  : list door_dict * list log_event :=
  match image_paths with
  | [] => (all_doors, log)
  | image_path :: rest =>
      match process_page i image_path with
      | Ok (Some measured_doors) =>
          process_pages (i + 1) rest (all_doors ++ measured_doors) log
      | Ok None =>
          process_pages (i + 1) rest all_doors (log ++ [WarnNoScale (i + 1)])
      | Raise e =>
          process_pages (i + 1) rest all_doors (log ++ [ErrorPage (i + 1) e])
      end
  end.

(** [process_pdf]: the records returned for the pages of a document. *)
Definition process_pdf (image_paths : list path)
  : list door_dict * list log_event :=
  process_pages 0 image_paths [] [].
End Pipeline.

(** What a page gives to the batch: its records and its log line. *)
Definition page_records (r : result (option (list door_dict))) : list door_dict :=
  match r with
  | Ok (Some measured_doors) => measured_doors
  | _ => []
  end.

Definition page_log (i : Z) (r : result (option (list door_dict)))
  : list log_event :=
  match r with
  | Ok (Some _) => []
  | Ok None => [WarnNoScale (i + 1)]
  | Raise e => [ErrorPage (i + 1) e]
  end.

End Cli.

(** ** Fixtures

    Small concrete inputs on which the statements below are exercised. *)

Module Fixtures.

Import Measurement.

(** A page stand-in that carries its shape and the moments of its mask;
    cropping clips the shape, the filters keep the page as it is. *)
Definition table_vision : Vision := {|
  image := Shape * Moments;
  contour := Q * Q;
  shape := fst;
  crop := fun img y1 y2 x1 x2 =>
    ({| rows := Z.max 0 (Z.min y2 (rows (fst img)) - y1);
        cols := Z.max 0 (Z.min x2 (cols (fst img)) - x1);
        channels := channels (fst img) |}, snd img);
  cvtColor_gray := fun img =>
    ({| rows := rows (fst img); cols := cols (fst img); channels := None |},
     snd img);
  adaptiveThreshold := fun img => img;
  erode := fun img => img;
  moments := snd;
  findContours := fun _ => [];
  contourArea := fun c => (fst c * snd c)%Q;
  minAreaRect_size := fun c => c;
  arctan2 := fun _ _ => 0%Q;
  degrees := fun a => a
|}.

(** A 1000 x 800 colour page whose mask has the given moments. *)
Definition page (m : Moments) : @image table_vision :=
  ({| rows := 800; cols := 1000; channels := Some 3 |}, m).

Definition flat : Moments := {| mu20 := 0; mu02 := 0; mu11 := 0 |}.
Definition upright : Moments := {| mu20 := 4; mu02 := 9; mu11 := 0 |}.

(** A candidate as the detectors build it. *)
Definition door_at (b : bbox) : door_dict :=
  DoorDetection.to_dict
    {| DoorDetection.c_bbox := b; DoorDetection.c_confidence := 3 # 4 |}.

(** A page with one horizontal segment of 100 pixels, from (10, 50) to
    (110, 50), whose band reads [text]. *)
Definition bar_page (text : string) : option Q :=
  ScaleDetection.find_graphic_scale_bar unit
    (fun _ => Some [(10, 50, 110, 50)])
    (fun _ => (800, 1000))
    (fun _ _ _ _ _ => ScaleDetection.text_of text)
    tt.

(** A 50 x 50 template: a hit at (100, 100) scoring 0.7, then a hit
    ten pixels to the right scoring 0.9, then one far away. *)
Definition frame_pass : DoorDetection.pass :=
  {| DoorDetection.template_h := 50; DoorDetection.template_w := 50;
     DoorDetection.response := [(100, 100, 7 # 10); (110, 100, 9 # 10);
                  (300, 300, 8 # 10); (400, 400, 1 # 10)] |}.

(** A 40 x 40 template with three hits close to one another: the third
    overlaps both of the others, which do not overlap each other. *)
Definition crowded_pass : DoorDetection.pass :=
  {| DoorDetection.template_h := 40; DoorDetection.template_w := 40;
     DoorDetection.response := [(0, 0, 65 # 100); (20, 0, 7 # 10);
                  (10, 1, 9 # 10)] |}.

(** Three pages; the second one has no scale text and no scale bar. *)
Definition read_page (n : nat) : option (@image table_vision) :=
  Some (if Nat.eqb n 2 then page flat else page upright).

Definition text_on (img : @image table_vision) : list ascii :=
  if Qeq_bool (mu20 (snd img)) 0 then ScaleDetection.text_of "GROUND FLOOR PLAN"
  else ScaleDetection.text_of "Scale 1:50".

Definition run_pages (i : Z) (ps : list nat) : list door_dict * list Cli.log_event :=
  @Cli.process_pages table_vision nat read_page (fun _ => "page.png"%string)
    (fun _ => None) (fun _ => []) (fun a => a) (fun a => a)
       (fun img _ => img)
    text_on (fun _ => None) (fun _ _ _ _ _ => [])
    (fun _ => Ok [door_at (100, 100, 140, 220)]) (fun _ _ _ => Ok tt)
    900 i ps [] [].

(** A page 1000 wide and 800 high with the given Hough lines, for a
    histogram with the given counts and a conversion to degrees that
    returns [deg]; the stand-ins for the trigonometry and the warp play
    no part in the angle. *)
Definition deskew_lines (lines : list (Q * Q)) (counts : list Z) (deg : Q)
  : unit * Q :=
  Preprocessing.deskew_image unit (fun _ => Some lines) (fun _ => counts)
    (fun _ => deg) (fun _ => (800, 1000))
    (fun _ => 1%Q) (fun _ => 0%Q) (fun img _ => img) tt.

(** The stand-in of [table_vision] with the orientation conversion
    returning a fixed number of degrees. *)
Definition tilted_vision (deg : Q) : Vision := {|
  image := Shape * Moments;
  contour := Q * Q;
  shape := fst;
  crop := @crop table_vision;
  cvtColor_gray := @cvtColor_gray table_vision;
  adaptiveThreshold := fun img => img;
  erode := fun img => img;
  moments := snd;
  findContours := fun _ => [];
  contourArea := fun c => (fst c * snd c)%Q;
  minAreaRect_size := fun c => c;
  arctan2 := fun _ _ => 0%Q;
  degrees := fun _ => deg
|}.

(** Pages of which the second cannot be read. *)
Definition read_page_or_fail (n : nat) : option (@image table_vision) :=
  if Nat.eqb n 2 then None else Some (page upright).

Definition run_pdf (read : nat -> option (@image table_vision)) (ps : list nat)
  : list door_dict * list Cli.log_event :=
  @Cli.process_pdf table_vision nat read (fun _ => "page.png"%string)
    (fun _ => None) (fun _ => []) (fun a => a) (fun a => a)
       (fun img _ => img)
    text_on (fun _ => None) (fun _ _ _ _ _ => [])
    (fun _ => Ok [door_at (100, 100, 140, 220)]) (fun _ _ _ => Ok tt)
    900 ps.

End Fixtures.

(** * Properties *)

(** ** Rounding *)

Section PyNumFacts.
Import PyNum.


(** Rounding never crosses an integer. *)
Lemma round_half_even_ge (n : Z) (q : Q) :
  (inject_Z n <= q)%Q -> n <= round_half_even q.
Proof.
  intros H. unfold round_half_even.
  assert (Hf : n <= Qfloor q).
  { rewrite <- (Qfloor_Z n). now apply Qfloor_resp_le. }
  destruct (_ ?= _)%Q; [destruct (Z.even _) | |]; lia.
Qed.

Lemma round_half_even_le (n : Z) (q : Q) :
  (q <= inject_Z n)%Q -> round_half_even q <= n.
Proof.
  intros H. unfold round_half_even.
  pose proof (Qfloor_le q) as Hlo.
  assert (Hf : Qfloor q <= n).
  { rewrite <- (Qfloor_Z n). now apply Qfloor_resp_le. }
  assert (Hstep : (0 < q - inject_Z (Qfloor q))%Q -> Qfloor q + 1 <= n).
  { intros Hr. assert (Hlt : (inject_Z (Qfloor q) < inject_Z n)%Q) by lra.
    rewrite <- Zlt_Qlt in Hlt. lia. }
  destruct (Qcompare_spec (q - inject_Z (Qfloor q)) (1 # 2)) as [He | Hl | Hg].
  - destruct (Z.even _); [lia |]. apply Hstep. lra.
  - lia.
  - apply Hstep. lra.
Qed.

Lemma round_half_even_floor (q : Q) :
  Qfloor q <= round_half_even q <= Qfloor q + 1.
Proof.
  unfold round_half_even.
  destruct (_ ?= _)%Q; [destruct (Z.even _) | |]; lia.
Qed.

Lemma round_half_even_mono (q q' : Q) :
  (q <= q')%Q -> round_half_even q <= round_half_even q'.
Proof.
  intros H.
  pose proof (Qfloor_resp_le _ _ H) as Hf.
  destruct (Z.eq_dec (Qfloor q) (Qfloor q')) as [E | N].
  - unfold round_half_even. rewrite <- E.
    destruct (Qcompare_spec (q - inject_Z (Qfloor q)) (1 # 2)) as [He | Hl | Hg];
      destruct (Qcompare_spec (q' - inject_Z (Qfloor q)) (1 # 2)) as [He' | Hl' | Hg'];
      try destruct (Z.even _); try lia; lra.
  - pose proof (round_half_even_floor q). pose proof (round_half_even_floor q').
    lia.
Qed.

(** Powers of two. *)

Lemma pow2_pos (e : Z) : (0 < 2 ^ e)%Q.
Proof. apply Qpower_0_lt. reflexivity. Qed.

Lemma pow2_succ (e : Z) : (2 ^ (e + 1) == 2 * 2 ^ e)%Q.
Proof. rewrite Qpower_plus by discriminate. change (2 ^ 1)%Q with 2%Q. ring. Qed.

Lemma pow2_le (a b : Z) : a <= b -> (2 ^ a <= 2 ^ b)%Q.
Proof. intros H. apply Qpower_le_compat_l; [exact H | discriminate]. Qed.

Lemma pow2_lt_inv (a b : Z) : (2 ^ a < 2 ^ b)%Q -> a < b.
Proof. intros H. apply (Qpower_lt_compat_l_inv 2); [exact H | reflexivity]. Qed.

Lemma pow2_inject (a : Z) : 0 <= a -> (inject_Z (2 ^ a) == 2 ^ a)%Q.
Proof. intros H. now rewrite Zpower_Qpower. Qed.


(** The binary exponent. *)

Lemma ilog2_spec (q : Q) :
  (0 < q)%Q -> (2 ^ ilog2 q <= q < 2 ^ (ilog2 q + 1))%Q.
Proof.
  intros Hq. unfold ilog2.
  destruct q as [n d]. cbn [Qnum Qden].
  assert (Hn : 0 < n) by (unfold Qlt in Hq; cbn in Hq; lia).
  rewrite (Z.abs_eq n) by lia.
  assert (Habs : (Qabs (n # d) == n # d)%Q) by (apply Qabs_pos; lra).
  destruct (Z.log2_spec n Hn) as [Ha1 Ha2].
  destruct (Z.log2_spec (Z.pos d) (Pos2Z.is_pos d)) as [Hb1 Hb2].
  pose proof (Z.log2_nonneg n) as Ha0.
  pose proof (Z.log2_nonneg (Z.pos d)) as Hb0.
  set (a := Z.log2 n) in *. set (b := Z.log2 (Z.pos d)) in *.
  rewrite Zle_Qle in Ha1, Hb1. rewrite Zlt_Qlt in Ha2, Hb2.
  rewrite pow2_inject in Ha1, Hb1 by lia.
  rewrite pow2_inject in Ha2, Hb2 by lia.
  unfold Z.succ in *. rewrite pow2_succ in Ha2, Hb2.
  pose proof (pow2_pos a) as HA. pose proof (pow2_pos b) as HB.
  pose proof (pow2_pos (a - b)) as HK.
  assert (HAB : (2 ^ (a - b) * 2 ^ b == 2 ^ a)%Q).
  { rewrite <- Qpower_plus by discriminate. now replace (a - b + b) with a by lia. }
  assert (Hqd : ((n # d) * inject_Z (Z.pos d) == inject_Z n)%Q).
  { rewrite (Qmake_Qdiv n d). field. discriminate. }
  set (q := (n # d)%Q) in *. set (N := inject_Z n) in *.
  set (D := inject_Z (Z.pos d)) in *.
  set (A := (2 ^ a)%Q) in *. set (B := (2 ^ b)%Q) in *.
  set (K := (2 ^ (a - b))%Q) in *.
  assert (Hup : (q < 2 * K)%Q).
  { apply Qnot_le_lt. intros Hc.
    assert (2 * K * B <= q * D)%Q by nra. nra. }
  assert (Hlo : (K < 2 * q)%Q).
  { apply Qnot_le_lt. intros Hc.
    assert (2 * q * D <= K * D)%Q by nra.
    assert (K * D < K * (2 * B))%Q by nra. nra. }
  destruct (Qle_bool K (Qabs q)) eqn:E.
  - apply Qle_bool_iff in E. rewrite Habs in E.
    rewrite pow2_succ. fold K. split; lra.
  - assert (Hlt : (q < K)%Q).
    { apply Qnot_le_lt. intros Hc. rewrite <- Habs in Hc.
      apply Qle_bool_iff in Hc. congruence. }
    replace (a - b - 1 + 1) with (a - b) by lia. fold K.
    assert (HK1 : (K == 2 * 2 ^ (a - b - 1))%Q).
    { unfold K. rewrite <- pow2_succ. now replace (a - b - 1 + 1) with (a - b) by lia. }
    split; lra.
Qed.


Lemma ilog2_mono (q q' : Q) : (0 < q)%Q -> (q <= q')%Q -> ilog2 q <= ilog2 q'.
Proof.
  intros Hq Hle.
  destruct (ilog2_spec q Hq) as [H1 H2].
  destruct (ilog2_spec q') as [H3 H4]; [lra |].
  assert (ilog2 q < ilog2 q' + 1) by (apply pow2_lt_inv; lra).
  lia.
Qed.

Lemma exponent_mono (q q' : Q) :
  (0 < q)%Q -> (q <= q')%Q -> exponent q <= exponent q'.
Proof.
  intros Hq Hle. unfold exponent.
  pose proof (ilog2_mono q q' Hq Hle). lia.
Qed.

(** Rounding on the grid of step [2 ^ e]. *)

Lemma round_half_even_int (q : Q) (m : Z) :
  (q == inject_Z m)%Q -> round_half_even q = m.
Proof.
  intros H.
  assert (m <= round_half_even q) by (apply round_half_even_ge; lra).
  assert (round_half_even q <= m) by (apply round_half_even_le; lra).
  lia.
Qed.

Lemma div_pow2_le (e : Z) (q q' : Q) :
  (q <= q')%Q -> (q / 2 ^ e <= q' / 2 ^ e)%Q.
Proof.
  intros H. unfold Qdiv. apply Qmult_le_compat_r; [exact H |].
  apply Qinv_le_0_compat. apply Qlt_le_weak, pow2_pos.
Qed.

Lemma grid_mono (e : Z) (q q' : Q) : (q <= q')%Q -> (grid e q <= grid e q')%Q.
Proof.
  intros H. unfold grid.
  apply Qmult_le_compat_r; [| apply Qlt_le_weak, pow2_pos].
  rewrite <- Zle_Qle. apply round_half_even_mono. now apply div_pow2_le.
Qed.

Lemma grid_exact (e : Z) (q : Q) (m : Z) :
  (q == inject_Z m * 2 ^ e)%Q -> (grid e q == q)%Q.
Proof.
  intros H. unfold grid.
  rewrite (round_half_even_int (q / 2 ^ e) m).
  - now rewrite H.
  - rewrite H. field. pose proof (pow2_pos e). lra.
Qed.

Lemma grid_pow2 (e j : Z) : e <= j -> (grid e (2 ^ j) == 2 ^ j)%Q.
Proof.
  intros H. apply (grid_exact e _ (2 ^ (j - e))).
  rewrite pow2_inject by lia.
  rewrite <- Qpower_plus by discriminate.
  now replace (j - e + e) with j by lia.
Qed.

Lemma grid_nonneg (e : Z) (q : Q) : (0 <= q)%Q -> (0 <= grid e q)%Q.
Proof.
  intros H. unfold grid.
  apply Qmult_le_0_compat; [| apply Qlt_le_weak, pow2_pos].
  change 0%Q with (inject_Z 0). rewrite <- Zle_Qle.
  apply round_half_even_ge. change (inject_Z 0) with 0%Q.
  apply Qle_shift_div_l; [apply pow2_pos | lra].
Qed.

Lemma nearest_grid (q : Q) : nearest q = grid (exponent q) q.
Proof. reflexivity. Qed.

Lemma nearest_mono (q q' : Q) :
  (0 < q)%Q -> (q <= q')%Q -> (nearest q <= nearest q')%Q.
Proof.
  intros Hq Hle. rewrite !nearest_grid.
  pose proof (exponent_mono q q' Hq Hle) as He.
  destruct (Z.eq_dec (exponent q) (exponent q')) as [E | N].
  - rewrite E. now apply grid_mono.
  - assert (Hlt : exponent q < exponent q') by lia.
    assert (Hq' : (0 < q')%Q) by lra.
    destruct (ilog2_spec q Hq) as [_ Hhi].
    destruct (ilog2_spec q' Hq') as [Hlo _].
    assert (Hn : exponent q' = ilog2 q' - 52) by (unfold exponent in *; lia).
    set (p := (2 ^ ilog2 q')%Q).
    assert (Hqp : (q <= p)%Q).
    { apply Qle_trans with (2 ^ (ilog2 q + 1))%Q; [lra |].
      apply pow2_le. unfold exponent in *. lia. }
    apply Qle_trans with p.
    + apply Qle_trans with (grid (exponent q) p).
      * now apply grid_mono.
      * subst p. rewrite grid_pow2; [lra |]. lia.
    + apply Qle_trans with (grid (exponent q') p).
      * subst p. rewrite grid_pow2; [lra |]. lia.
      * now apply grid_mono.
Qed.

Lemma nearest_nonneg (q : Q) : (0 <= q)%Q -> (0 <= nearest q)%Q.
Proof. intros H. rewrite nearest_grid. now apply grid_nonneg. Qed.

(** The rounding [b64]: order, sign, fixed points. *)

Lemma b64_cases (q : Q) :
  ((q < 0)%Q /\ b64 q = (- nearest (- q))%Q)
  \/ ((q == 0)%Q /\ b64 q = 0%Q)
  \/ ((0 < q)%Q /\ b64 q = nearest q).
Proof.
  unfold b64. destruct (Qcompare_spec q 0) as [H | H | H]; auto.
Qed.

Lemma b64_mono (q q' : Q) : (q <= q')%Q -> (b64 q <= b64 q')%Q.
Proof.
  intros H.
  destruct (b64_cases q) as [[Hq ->] | [[Hq ->] | [Hq ->]]];
    destruct (b64_cases q') as [[Hq' ->] | [[Hq' ->] | [Hq' ->]]];
    try lra.
  - assert (nearest (- q') <= nearest (- q))%Q
      by (apply nearest_mono; lra).
    lra.
  - assert (0 <= nearest (- q))%Q by (apply nearest_nonneg; lra). lra.
  - assert (0 <= nearest (- q))%Q by (apply nearest_nonneg; lra).
    assert (0 <= nearest q')%Q by (apply nearest_nonneg; lra). lra.
  - apply nearest_nonneg; lra.
  - now apply nearest_mono.
Qed.

Lemma b64_compat (q q' : Q) : (q == q')%Q -> (b64 q == b64 q')%Q.
Proof. intros H. apply Qle_antisym; apply b64_mono; lra. Qed.

Lemma b64_nonneg (q : Q) : (0 <= q)%Q -> (0 <= b64 q)%Q.
Proof. intros H. change 0%Q with (b64 0) at 1. now apply b64_mono. Qed.

Lemma nearest_compat (q q' : Q) :
  (0 < q)%Q -> (q == q')%Q -> (nearest q == nearest q')%Q.
Proof.
  intros Hq H. apply Qle_antisym; apply nearest_mono; lra.
Qed.

Lemma b64_opp (q : Q) : (b64 (- q) == - b64 q)%Q.
Proof.
  destruct (b64_cases q) as [[Hq ->] | [[Hq ->] | [Hq ->]]];
    destruct (b64_cases (- q)) as [[Hq' ->] | [[Hq' ->] | [Hq' ->]]];
    try lra.
  rewrite (nearest_compat (- - q) q); [lra | lra | ring].
Qed.

(** Values that binary64 holds. *)


Lemma pow2_mult (a b : Z) : (2 ^ a * 2 ^ b == 2 ^ (a + b))%Q.
Proof. now rewrite Qpower_plus by discriminate. Qed.

Lemma nearest_exact (q : Q) (m : Z) :
  (q == inject_Z m * 2 ^ exponent q)%Q -> (nearest q == q)%Q.
Proof. intros H. rewrite nearest_grid. now apply (grid_exact _ _ m). Qed.




(** Integers of at most 53 bits are held exactly. *)
Lemma b64_int (z : Z) : Z.abs z < 2 ^ 53 -> (b64 (inject_Z z) == inject_Z z)%Q.
Proof.
  assert (Hpos : forall z, 0 < z < 2 ^ 53 ->
                   (nearest (inject_Z z) == inject_Z z)%Q).
  { clear z. intros z Hz.
    assert (Hq : (0 < inject_Z z)%Q).
    { change 0%Q with (inject_Z 0). rewrite <- Zlt_Qlt. lia. }
    destruct (ilog2_spec _ Hq) as [Hl _].
    assert (Hz53 : (inject_Z z < 2 ^ 53)%Q).
    { rewrite <- pow2_inject by lia. rewrite <- Zlt_Qlt. lia. }
    assert (ilog2 (inject_Z z) < 53) by (apply pow2_lt_inv; lra).
    set (e := exponent (inject_Z z)).
    assert (He : -1074 <= e <= 0) by (subst e; unfold exponent; lia).
    apply (nearest_exact _ (z * 2 ^ (- e))). fold e.
    rewrite inject_Z_mult, pow2_inject by lia.
    rewrite <- Qmult_assoc, pow2_mult.
    replace (- e + e) with 0 by lia. change (2 ^ 0)%Q with 1%Q. ring. }
  intros Hz. destruct (Z.lt_trichotomy z 0) as [Hn | [-> | Hp]].
  - assert (E : (inject_Z z == - inject_Z (- z))%Q).
    { rewrite inject_Z_opp. ring. }
    rewrite (b64_compat _ _ E), b64_opp.
    assert (Hq : (0 < inject_Z (- z))%Q).
    { change 0%Q with (inject_Z 0). rewrite <- Zlt_Qlt. lia. }
    destruct (b64_cases (inject_Z (- z))) as [[H' E'] | [[H' E'] | [H' E']]];
      try lra.
    rewrite E', Hpos by lia. rewrite inject_Z_opp. ring.
  - reflexivity.
  - assert (Hq : (0 < inject_Z z)%Q).
    { change 0%Q with (inject_Z 0). rewrite <- Zlt_Qlt. lia. }
    destruct (b64_cases (inject_Z z)) as [[H' E'] | [[H' E'] | [H' E']]];
      try lra.
    rewrite E'. apply Hpos. lia.
Qed.


Lemma round1_ge (t q : Q) :
  one_decimal t -> representable t -> (t <= q)%Q -> (t <= round1 q)%Q.
Proof.
  intros [n Hn] Ht H. unfold round1.
  assert (Hq : (inject_Z n <= q * 10)%Q) by lra.
  apply round_half_even_ge in Hq. rewrite Zle_Qle in Hq.
  set (m := inject_Z (round_half_even (q * 10))) in *.
  assert (Hm : (m / 10 == m * (1 # 10))%Q) by (unfold Qdiv; reflexivity).
  unfold representable in Ht. rewrite <- Ht.
  apply b64_mono. rewrite Hm. lra.
Qed.

Lemma round1_le (t q : Q) :
  one_decimal t -> representable t -> (q <= t)%Q -> (round1 q <= t)%Q.
Proof.
  intros [n Hn] Ht H. unfold round1.
  assert (Hq : (q * 10 <= inject_Z n)%Q) by lra.
  apply round_half_even_le in Hq. rewrite Zle_Qle in Hq.
  set (m := inject_Z (round_half_even (q * 10))) in *.
  assert (Hm : (m / 10 == m * (1 # 10))%Q) by (unfold Qdiv; reflexivity).
  unfold representable in Ht. rewrite <- Ht.
  apply b64_mono. rewrite Hm. lra.
Qed.

Lemma round1_mono (q q' : Q) : (q <= q')%Q -> (round1 q <= round1 q')%Q.
Proof.
  intros Hle. unfold round1. apply b64_mono.
  assert (H10 : (q * 10 <= q' * 10)%Q) by lra.
  apply round_half_even_mono in H10. rewrite Zle_Qle in H10.
  unfold Qdiv. apply Qmult_le_compat_r; [exact H10 | discriminate].
Qed.



Lemma representable_int (z : Z) : Z.abs z < 2 ^ 53 -> representable (inject_Z z).
Proof. apply b64_int. Qed.

Lemma fmod_range (x m : Q) :
  (0 < m)%Q -> representable m -> (0 <= fmod x m <= m)%Q.
Proof.
  intros Hm Hr. unfold fmod.
  pose proof (Qfloor_le (x / m)) as Hlo.
  pose proof (Qlt_floor (x / m)) as Hhi.
  rewrite inject_Z_plus in Hhi. change (inject_Z 1) with 1%Q in Hhi.
  set (k := inject_Z (Qfloor (x / m))) in *.
  assert (Hx : (x == m * (x / m))%Q) by (field; lra).
  assert (H1 : (m * k <= m * (x / m))%Q).
  { rewrite !(Qmult_comm m). apply Qmult_le_compat_r; lra. }
  assert (H2 : (m * (x / m) < m * (k + 1))%Q).
  { rewrite !(Qmult_comm m). apply Qmult_lt_compat_r; lra. }
  split.
  - apply b64_nonneg. lra.
  - unfold representable in Hr. rewrite <- Hr at 2. apply b64_mono. lra.
Qed.

Lemma ge_true (x y : Q) : ge x y = true <-> (y <= x)%Q.
Proof. unfold ge. apply Qle_bool_iff. Qed.

Lemma ge_false (x y : Q) : ge x y = false <-> (x < y)%Q.
Proof.
  unfold ge. split.
  - intros H. apply Qnot_le_lt. intros Hle.
    apply Qle_bool_iff in Hle. congruence.
  - intros H. destruct (Qle_bool y x) eqn:E; [| reflexivity].
    apply Qle_bool_iff in E. lra.
Qed.


Lemma lt_true (x y : Q) : lt x y = true <-> (x < y)%Q.
Proof.
  unfold lt. rewrite negb_true_iff. apply (ge_false x y).
Qed.

Lemma lt_false (x y : Q) : lt x y = false <-> (y <= x)%Q.
Proof.
  unfold lt. rewrite negb_false_iff. apply (ge_true x y).
Qed.
End PyNumFacts.

(** ** Measurement *)

Section MeasurementFacts.
Import PyNum Measurement.

Lemma door_width_mm_ok (door : door_dict) (b : bbox) (s t : Q) :
  door !! "bbox" = Some (VBox b) ->
  door_width_mm door s t =
    Ok (<["is_compliant" := VBool (ge (mul (of_int (leaf_width_px b)) s) t)]>
          (<["width_mm" := VFloat (round1 (mul (of_int (leaf_width_px b)) s))]>
             door)).
Proof. intros Hb. unfold door_width_mm. now rewrite Hb. Qed.

Lemma baseline_records (door : door_dict) (b : bbox) (s t : Q) :
  door !! "bbox" = Some (VBox b) ->
  exists r, door_width_mm door s t = Ok r
            /\ records_width r (mul (of_int (leaf_width_px b)) s) t
            /\ r !! "angle_deg" = door !! "angle_deg"
            /\ r !! "bbox" = Some (VBox b).
Proof.
  intros Hb. rewrite (door_width_mm_ok _ _ _ _ Hb).
  eexists. split; [reflexivity |]. unfold records_width.
  repeat split.
  - rewrite lookup_insert_ne by done. apply lookup_insert_eq.
  - apply lookup_insert_eq.
  - now rewrite !lookup_insert_ne by done.
  - now rewrite !lookup_insert_ne by done.
Qed.

Context `{V : Vision}.

Lemma refine_cases (img : image) (door : door_dict) (b : bbox) (s t : Q) :
  door !! "bbox" = Some (VBox b) ->
  refine_door_measurement img door s t =
    if (size (shape (door_region img b)) =? 0) || moments_sum_zero img b
    then door_width_mm door s t
    else Ok (refined_measurement img door b s t).
Proof.
  intros Hb. unfold refine_door_measurement. rewrite Hb.
  destruct (size (shape (door_region img b)) =? 0); [reflexivity |].
  cbn [orb]. unfold moments_sum_zero, region_moments.
  destruct (Qeq_bool _ 0); reflexivity.
Qed.

Lemma moments_sum_zero_vanish (img : image) (b : bbox) :
  (0 <= mu20 (region_moments img b))%Q ->
  (0 <= mu02 (region_moments img b))%Q ->
  moments_sum_zero img b = true <-> moments_vanish img b.
Proof.
  intros H20 H02. unfold moments_sum_zero, moments_vanish.
  rewrite Qeq_bool_iff. split.
  - intros H. split; lra.
  - intros [H1 H2]. lra.
Qed.

Lemma refined_record_lookups (door : door_dict) (w a s t : Q) :
  records_width (refined_record door w a s t) (mul (b64 w) s) t
  /\ refined_record door w a s t !! "angle_deg" = Some (VFloat (round1 a)).
Proof.
  unfold records_width, refined_record. repeat split.
  - rewrite !lookup_insert_ne by done. apply lookup_insert_eq.
  - rewrite lookup_insert_ne by done. apply lookup_insert_eq.
  - apply lookup_insert_eq.
Qed.
End MeasurementFacts.

(** ** The baseline measurement and the stored width *)

Section BaselineWidth.
Import PyNum Measurement Fixtures.



End BaselineWidth.

(** ** Compliance *)

Section Compliance.
Import PyNum Measurement Fixtures.
Context `{V : Vision}.

End Compliance.

Section ComplianceExamples.
Import PyNum Measurement Fixtures.


End ComplianceExamples.

(** ** Degradation to the baseline *)

Section Degradation.
Import PyNum Measurement.
Context `{V : Vision}.

Lemma degenerate_test (img : image) (b : bbox) :
  (0 <= mu20 (region_moments img b))%Q ->
  (0 <= mu02 (region_moments img b))%Q ->
  (size (shape (door_region img b)) =? 0) || moments_sum_zero img b = true
  <-> region_empty img b \/ moments_vanish img b.
Proof.
  intros H20 H02. rewrite orb_true_iff, Z.eqb_eq.
  rewrite (moments_sum_zero_vanish img b H20 H02). reflexivity.
Qed.

(** C3: on a candidate that carries its box, [refine_door_measurement]
    always returns a record.  When the crop is empty or the second-order
    central moments of the eroded mask both vanish, the record is the one
    [door_width_mm] returns for the same candidate; otherwise it is the
    refined record.  (Central moments of a mask are not negative.) *)
Theorem refine_door_measurement_never_fails
    (img : image) (door : door_dict) (b : bbox) (s t : Q) :
  door !! "bbox" = Some (VBox b) ->
  (0 <= mu20 (region_moments img b))%Q ->
  (0 <= mu02 (region_moments img b))%Q ->
  (exists r, refine_door_measurement img door s t = Ok r)
  /\ (region_empty img b \/ moments_vanish img b ->
      refine_door_measurement img door s t = door_width_mm door s t)
  /\ (~ (region_empty img b \/ moments_vanish img b) ->
      refine_door_measurement img door s t
      = Ok (refined_measurement img door b s t)).
Proof.
  intros Hb H20 H02.
  pose proof (degenerate_test img b H20 H02) as Hd.
  rewrite (refine_cases img door b s t Hb).
  destruct (_ || _) eqn:E.
  - repeat split.
    + rewrite (door_width_mm_ok door b s t Hb). eauto.
    + intros Habs. exfalso. apply Habs, Hd. reflexivity.
  - repeat split.
    + eauto.
    + intros Hdeg. apply Hd in Hdeg. discriminate Hdeg.
Qed.

(** C10: when [refine_door_measurement] degrades to the baseline on a
    candidate without an [angle_deg] entry, the record has [width_mm]
    and [is_compliant] and no [angle_deg]; the CSV row and the summary
    record made from it carry 0 for the angle.  On the refined path the
    record always has an [angle_deg]. *)
Theorem baseline_fallback_has_no_angle
    (img : image) (door : door_dict) (b : bbox) (s t : Q) :
  door !! "bbox" = Some (VBox b) ->
  door !! "angle_deg" = None ->
  (0 <= mu20 (region_moments img b))%Q ->
  (0 <= mu02 (region_moments img b))%Q ->
  (region_empty img b \/ moments_vanish img b ->
     exists r row rec,
       refine_door_measurement img door s t = Ok r
       /\ is_Some (r !! "width_mm")
       /\ is_Some (r !! "is_compliant")
       /\ r !! "angle_deg" = None
       /\ Reporting.csv_row_of r = Ok row
       /\ Reporting.row_angle_deg row = VInt 0
       /\ Reporting.summary_record_of r = Ok rec
       /\ Reporting.rec_angle_deg rec = VInt 0)
  /\ (~ (region_empty img b \/ moments_vanish img b) ->
      exists r a,
        refine_door_measurement img door s t = Ok r
        /\ r !! "angle_deg" = Some (VFloat a)).
Proof.
  intros Hb Ha H20 H02.
  pose proof (degenerate_test img b H20 H02) as Hd.
  rewrite (refine_cases img door b s t Hb).
  split; intros Hdeg.
  - apply Hd in Hdeg. rewrite Hdeg.
    destruct (baseline_records door b s t Hb)
      as (r & Hr & [Hw Hc] & Hang & Hbox).
    rewrite Ha in Hang. destruct b as [[[x1 y1] x2] y2].
    eexists r, _, _. split; [exact Hr |].
    split; [rewrite Hw; eauto |]. split; [rewrite Hc; eauto |].
    split; [exact Hang |].
    unfold Reporting.csv_row_of, Reporting.summary_record_of,
      Reporting.bbox_coord, Reporting.get.
    rewrite Hbox, Hang. cbn. repeat split.
  - destruct ((size (shape (door_region img b)) =? 0) || moments_sum_zero img b)
      eqn:E.
    + exfalso. apply Hdeg, Hd. reflexivity.
    + eexists _, _. split; [reflexivity |].
      apply refined_record_lookups.
Qed.
End Degradation.

Section DegradationExamples.
Import PyNum Measurement Fixtures.

Lemma refine_door_measurement_never_fails_witness :
  refine_door_measurement (page flat) (door_at (100, 100, 140, 220)) 5 900
  = door_width_mm (door_at (100, 100, 140, 220)) 5 900.
Proof.
  refine (proj1 (proj2
    (refine_door_measurement_never_fails
       (page flat) (door_at (100, 100, 140, 220)) (100, 100, 140, 220)
       5 900 eq_refl _ _)) _).
  - vm_compute. discriminate.
  - vm_compute. discriminate.
  - right. split; reflexivity.
Defined.

Lemma baseline_fallback_has_no_angle_witness :
  exists r row rec,
    refine_door_measurement (page flat) (door_at (100, 100, 140, 220)) 5 900
      = Ok r
    /\ is_Some (r !! "width_mm")
    /\ is_Some (r !! "is_compliant")
    /\ r !! "angle_deg" = None
    /\ Reporting.csv_row_of r = Ok row
    /\ Reporting.row_angle_deg row = VInt 0
    /\ Reporting.summary_record_of r = Ok rec
    /\ Reporting.rec_angle_deg rec = VInt 0.
Proof.
  refine (proj1
    (baseline_fallback_has_no_angle
       (page flat) (door_at (100, 100, 140, 220)) (100, 100, 140, 220)
       5 900 eq_refl eq_refl _ _) _).
  - vm_compute. discriminate.
  - vm_compute. discriminate.
  - right. split; reflexivity.
Defined.

(** The end-to-end figures of the specification: a 40 x 120 box at
    5 mm per pixel against 900 mm, then a 190 x 800 box. *)
Example narrow_door_record :
  exists r w, door_width_mm (door_at (100, 100, 140, 220)) 5 900 = Ok r
              /\ r !! "width_mm" = Some (VFloat w)
              /\ (w == 200)%Q
              /\ r !! "is_compliant" = Some (VBool false).
Proof.
  eexists _, _. split; [reflexivity |].
  split; [vm_compute; reflexivity |]. split; vm_compute; reflexivity.
Qed.

Example wide_door_record :
  exists r w, door_width_mm (door_at (0, 0, 190, 800)) 5 900 = Ok r
              /\ r !! "width_mm" = Some (VFloat w)
              /\ (w == 950)%Q
              /\ r !! "is_compliant" = Some (VBool true).
Proof.
  eexists _, _. split; [reflexivity |].
  split; [vm_compute; reflexivity |]. split; vm_compute; reflexivity.
Qed.
(** The product of line 37 is a float: 3 pixels at 0.4166666666666667 mm
    per pixel give 1.25 (the exact product lies just above), stored as
    the float nearest to 1.2; 11 pixels at 81.81818181818181 mm per
    pixel give 900.0 (the exact product lies just below), flagged
    compliant against 900. *)
Example product_is_rounded_to_binary64 :
  (exists r w,
     door_width_mm (door_at (0, 0, 3, 5))
       (7505999378950827 # 18014398509481984) 900 = Ok r
     /\ r !! "width_mm" = Some (VFloat w)
     /\ (w == 5404319552844595 # 4503599627370496)%Q)
  /\ (exists r w,
        door_width_mm (door_at (0, 0, 11, 20))
          (1439360676361309 # 17592186044416) 900 = Ok r
        /\ r !! "width_mm" = Some (VFloat w)
        /\ (w == 900)%Q
        /\ r !! "is_compliant" = Some (VBool true)).
Proof.
  split; eexists _, _; (split; [reflexivity |]).
  - split; vm_compute; reflexivity.
  - split; [vm_compute; reflexivity |]. split; vm_compute; reflexivity.
Qed.
End DegradationExamples.

(** ** Scale text *)

Section ScaleTextFacts.
Import PyNum ScaleDetection.

Lemma span_run (p : ascii -> bool) (run rest : list ascii) :
  Forall (fun c => p c = true) run -> stops p rest ->
  span p (run ++ rest) = (run, rest).
Proof.
  intros Hrun Hrest. induction Hrun as [| c run Hc _ IH]; cbn [app span].
  - destruct rest as [| c rest]; [reflexivity |]. cbn [span stops] in *.
    now rewrite Hrest.
  - now rewrite Hc, IH.
Qed.

Lemma digit_not_space (c : ascii) : is_digit c = true -> is_space c = false.
Proof.
  destruct c as [[] [] [] [] [] [] [] []]; vm_compute; congruence.
Qed.

Lemma digits1_run (ds rest : list ascii) :
  ds <> [] -> Forall (fun c => is_digit c = true) ds -> stops is_digit rest ->
  digits1 (ds ++ rest) = Some (ds, rest).
Proof.
  intros Hne Hds Hrest. unfold digits1. rewrite (span_run _ _ _ Hds Hrest).
  destruct ds; [contradiction | reflexivity].
Qed.

Lemma spaces_run (ws rest : list ascii) :
  Forall (fun c => is_space c = true) ws -> stops is_space rest ->
  spaces (ws ++ rest) = rest.
Proof.
  intros Hws Hrest. unfold spaces. now rewrite (span_run _ _ _ Hws Hrest).
Qed.

Lemma float_of_digits (ds : list ascii) :
  Forall (fun c => is_digit c = true) ds ->
  float_of_text ds = inject_Z (int_of_digits ds).
Proof.
  intros Hds. unfold float_of_text.
  rewrite <- (app_nil_r ds) at 1.
  now rewrite (span_run is_digit ds [] Hds I).
Qed.

Lemma ratio_at_written (ws1 ws2 ds post : list ascii) :
  Forall (fun c => is_space c = true) ws1 ->
  Forall (fun c => is_space c = true) ws2 ->
  ds <> [] -> Forall (fun c => is_digit c = true) ds ->
  stops is_digit post ->
  ratio_at (ratio_text ws1 ws2 ds post) = Some ds.
Proof.
  intros H1 H2 Hne Hds Hpost. unfold ratio_at, ratio_text. cbn.
  rewrite (spaces_run ws1) by (assumption || reflexivity). cbn.
  rewrite (spaces_run ws2); [| assumption |].
  - now rewrite (digits1_run ds post).
  - destruct ds as [| d ds]; [contradiction |]. cbn.
    apply digit_not_space. now inversion Hds.
Qed.

Lemma search_skip {A} (at_pos : list ascii -> option A) (pre s : list ascii) :
  (forall c rest, c ∈ pre -> at_pos (c :: rest) = None) ->
  search at_pos (pre ++ s) = search at_pos s.
Proof.
  induction pre as [| c pre IH]; intros H; [reflexivity |].
  cbn. rewrite H by apply list_elem_of_here.
  apply IH. intros c' rest Hc'. apply H. now apply list_elem_of_further.
Qed.

Lemma search_ratio_written (pre ws1 ws2 ds post : list ascii) :
  "1"%char ∉ pre ->
  Forall (fun c => is_space c = true) ws1 ->
  Forall (fun c => is_space c = true) ws2 ->
  ds <> [] -> Forall (fun c => is_digit c = true) ds ->
  stops is_digit post ->
  search ratio_at (pre ++ ratio_text ws1 ws2 ds post) = Some ds.
Proof.
  intros Hpre H1 H2 Hne Hds Hpost. rewrite search_skip.
  - unfold ratio_text at 1. cbn [search].
    fold (ratio_text ws1 ws2 ds post).
    now rewrite ratio_at_written.
  - intros c rest Hc. unfold ratio_at, lit.
    destruct (Ascii.eqb_spec "1"%char c) as [<- | _];
      [contradiction | reflexivity].
Qed.

Lemma truediv_nonzero (x y : Q) :
  ~ (y == 0)%Q -> truediv x y = Ok (x / y)%Q.
Proof.
  intros H. unfold truediv. destruct (Qeq_bool y 0) eqn:E; [| reflexivity].
  apply Qeq_bool_iff in E. contradiction.
Qed.

Lemma truediv_zero (x y : Q) :
  (y == 0)%Q -> truediv x y = Raise ZeroDivisionError.
Proof.
  intros H. unfold truediv. apply Qeq_bool_iff in H. now rewrite H.
Qed.
End ScaleTextFacts.

Section ScaleTextPriority.
Import PyNum ScaleDetection.

Lemma Qdiv_nonzero (a b : Q) : ~ (a == 0)%Q -> ~ (b == 0)%Q -> ~ (a / b == 0)%Q.
Proof.
  intros Ha Hb Hz. apply Ha.
  rewrite <- (Qmult_div_r a b Hb), Hz. ring.
Qed.

Lemma scale_of_ratio (text g1 : list ascii) :
  search ratio_at text = Some g1 ->
  scale_of_text text =
    (let* r := truediv 1 (float_of_text g1) in Ok (Some r)).
Proof. intros H. unfold scale_of_text. now rewrite H. Qed.

(** C4, as amended.  The patterns are tried in the order ratio,
    fractional-feet, bare fraction, and the first that matches anywhere
    in the text decides, whatever the others would give: a ratio [1:N]
    with [N] not 0 gives [1/N]; failing that, a fractional-feet notation
    with [A], [B], [F] not 0 gives [(A/B)/(12*F)]; failing that, a bare
    fraction [1/N] with [N] not 0 gives [1/N]; a text matching none gives
    the no-scale result.  A ratio is read at its leftmost occurrence and
    up to the last digit of [N]: a text whose first [1] starts [1:50] and
    goes on with something other than a digit gives 0.02. *)
Theorem scale_of_text_priority :
  (forall pre ws1 ws2 ds post : list ascii,
      "1"%char ∉ pre ->
      Forall (fun c => is_space c = true) ws1 ->
      Forall (fun c => is_space c = true) ws2 ->
      ds <> [] -> Forall (fun c => is_digit c = true) ds ->
      stops is_digit post ->
      int_of_digits ds <> 0 ->
      scale_of_text (pre ++ ratio_text ws1 ws2 ds post)
      = Ok (Some (1 / inject_Z (int_of_digits ds))%Q))
  /\ (forall text g1 : list ascii,
        search ratio_at text = Some g1 ->
        ~ (float_of_text g1 == 0)%Q ->
        scale_of_text text = Ok (Some (1 / float_of_text g1)%Q))
  /\ (forall text a b f : list ascii,
        search ratio_at text = None ->
        search feet_at text = Some (a, b, f) ->
        ~ (float_of_text a == 0)%Q ->
        ~ (float_of_text b == 0)%Q ->
        ~ (float_of_text f == 0)%Q ->
        exists r, scale_of_text text = Ok (Some r)
                  /\ (r == (float_of_text a / float_of_text b)
                           / (12 * float_of_text f))%Q)
  /\ (forall text g1 : list ascii,
        search ratio_at text = None ->
        search feet_at text = None ->
        search fraction_at text = Some g1 ->
        ~ (float_of_text g1 == 0)%Q ->
        scale_of_text text = Ok (Some (1 / float_of_text g1)%Q))
  /\ (forall text : list ascii,
        search ratio_at text = None ->
        search feet_at text = None ->
        search fraction_at text = None ->
        scale_of_text text = Ok None)
  /\ (forall pre post : list ascii,
        "1"%char ∉ pre -> stops is_digit post ->
        exists r, scale_of_text (pre ++ text_of "1:50" ++ post) = Ok (Some r)
                  /\ (r == 2 # 100)%Q).
Proof.
  assert (Hwritten : forall pre ws1 ws2 ds post : list ascii,
      "1"%char ∉ pre ->
      Forall (fun c => is_space c = true) ws1 ->
      Forall (fun c => is_space c = true) ws2 ->
      ds <> [] -> Forall (fun c => is_digit c = true) ds ->
      stops is_digit post ->
      int_of_digits ds <> 0 ->
      scale_of_text (pre ++ ratio_text ws1 ws2 ds post)
      = Ok (Some (1 / inject_Z (int_of_digits ds))%Q)).
  { intros pre ws1 ws2 ds post Hpre H1 H2 Hne Hds Hpost Hn.
    rewrite (scale_of_ratio _ ds)
      by (now apply search_ratio_written).
    rewrite (float_of_digits ds Hds).
    rewrite truediv_nonzero; [reflexivity |].
    change 0%Q with (inject_Z 0). rewrite inject_Z_injective. exact Hn. }
  split; [exact Hwritten |]. split; [| split; [| split; [| split]]].
  - intros text g1 H Hn. rewrite (scale_of_ratio _ g1 H).
    now rewrite truediv_nonzero.
  - intros text a b f H1 H2 Ha Hb Hf. unfold scale_of_text.
    rewrite H1, H2. cbn zeta.
    rewrite (truediv_nonzero _ _ Hb). cbn [bind].
    pose proof (Qdiv_nonzero _ _ Ha Hb) as Hab.
    rewrite (truediv_nonzero _ _ Hab). cbn [bind].
    assert (Hf12 : ~ (float_of_text f * 12 == 0)%Q).
    { intros Hz. apply Hf. lra. }
    rewrite (truediv_nonzero _ _ (Qdiv_nonzero _ _ Hf12 Hab)). cbn [bind].
    eexists. split; [reflexivity |]. field. repeat split; assumption.
  - intros text g1 H1 H2 H3 Hn. unfold scale_of_text.
    rewrite H1, H2, H3. now rewrite truediv_nonzero.
  - intros text H1 H2 H3. unfold scale_of_text. now rewrite H1, H2, H3.
  - intros pre post Hpre Hpost.
    pose proof (Hwritten pre [] [] (text_of "50") post Hpre) as H.
    eexists. split.
    + apply H; try solve [constructor]; try assumption.
      * discriminate.
      * repeat constructor.
      * vm_compute. discriminate.
    + vm_compute. reflexivity.
Qed.

Lemma scale_of_text_priority_witness :
  (exists r, scale_of_text (text_of "Scale 1:50") = Ok (Some r)
             /\ (r == 2 # 100)%Q)
  /\ scale_of_text (text_of "1/100 then 1:50")
     = Ok (Some (1 / float_of_text (text_of "50"))%Q).
Proof.
  destruct scale_of_text_priority as (_ & Hr & _ & _ & _ & H50).
  split.
  - apply (H50 (text_of "Scale ") []); [| exact I].
    apply (bool_decide_unpack _). vm_compute. exact I.
  - apply (Hr (text_of "1/100 then 1:50") (text_of "50")).
    + vm_compute. reflexivity.
    + vm_compute. discriminate.
Defined.
End ScaleTextPriority.

Section ScaleTextExamples.
Import PyNum ScaleDetection.

(** C4, as stated, fails: the text [Scale 1:500] contains [Scale 1:50]
    and gives 0.002. *)
Lemma scale_of_text_containing_ratio_differs :
  ~ (forall pre post : list ascii,
       exists r,
         scale_of_text (pre ++ text_of "Scale 1:50" ++ post) = Ok (Some r)
         /\ (r == 2 # 100)%Q).
Proof.
  intros H. destruct (H [] (text_of "0")) as (r & Hr & He).
  vm_compute in Hr. injection Hr as <-.
  vm_compute in He. discriminate He.
Qed.

Example quarter_inch_to_the_foot :
  exists r, scale_of_text (quarter_inch_per "1") = Ok (Some r)
            /\ (r == 1 # 48)%Q.
Proof. eexists. split; vm_compute; reflexivity. Qed.

Lemma scale_of_text_zero_divisor (text : list ascii) :
  zero_divisor text -> scale_of_text text = Raise ZeroDivisionError.
Proof.
  unfold scale_of_text.
  intros [(g1 & H1 & Hz) | [(H1 & a & b & f & H2 & Hz) | (H1 & H2 & g1 & H3 & Hz)]].
  - rewrite H1. now rewrite truediv_zero.
  - rewrite H1, H2. cbn zeta.
    destruct (Qeq_bool (float_of_text b) 0) eqn:Eb.
    { apply Qeq_bool_iff in Eb. now rewrite (truediv_zero _ _ Eb). }
    apply Qeq_bool_neq in Eb. rewrite (truediv_nonzero _ _ Eb). cbn [bind].
    destruct (Qeq_bool (float_of_text a) 0) eqn:Ea.
    { apply Qeq_bool_iff in Ea. rewrite truediv_zero; [reflexivity |].
      rewrite Ea. field. exact Eb. }
    apply Qeq_bool_neq in Ea.
    rewrite (truediv_nonzero _ _ (Qdiv_nonzero _ _ Ea Eb)). cbn [bind].
    destruct Hz as [Hz | [Hz | Hz]]; [contradiction | contradiction |].
    rewrite truediv_zero; [reflexivity |]. rewrite Hz. field.
    split; assumption.
  - rewrite H1, H2, H3. now rewrite truediv_zero.
Qed.

Section OnPage.
Variable image : Type.
Variable page_text : image -> list ascii.
Variable hough_lines_p : image -> option (list bbox).
Variable gray_shape : image -> Z * Z.
Variable band_text : image -> Z -> Z -> Z -> Z -> list ascii.

(** C9: the divisions of [find_numeric_scale_text] are not guarded.
    The texts [1:0] and [1/4in = 0ft-0in] have a zero divisor, and on
    a page whose recognised text has one, [find_numeric_scale_text]
    raises [ZeroDivisionError] instead of returning the no-scale
    result, and so does [detect_scale]. *)
Theorem find_numeric_scale_text_zero_division (img : image) :
  zero_divisor (page_text img) ->
  zero_divisor (text_of "1:0")
  /\ zero_divisor (quarter_inch_per "0")
  /\ find_numeric_scale_text image page_text img = Raise ZeroDivisionError
  /\ find_numeric_scale_text image page_text img <> Ok None
  /\ detect_scale image page_text hough_lines_p gray_shape band_text img
     = Raise ZeroDivisionError.
Proof.
  intros Hz. split; [| split].
  - left. exists (text_of "0"). split; vm_compute; reflexivity.
  - right. left. split; [vm_compute; reflexivity |].
    exists (text_of "1"), (text_of "4"), (text_of "0").
    split; [vm_compute; reflexivity |]. right. right.
    vm_compute. reflexivity.
  - assert (Hr : find_numeric_scale_text image page_text img
                 = Raise ZeroDivisionError).
    { unfold find_numeric_scale_text. now apply scale_of_text_zero_divisor. }
    split; [exact Hr |]. split; [rewrite Hr; discriminate |].
    unfold detect_scale. now rewrite Hr.
Qed.
End OnPage.

Lemma find_numeric_scale_text_zero_division_witness :
  find_numeric_scale_text unit (fun _ => text_of "Scale 1:0") tt
  = Raise ZeroDivisionError.
Proof.
  refine (proj1 (proj2 (proj2
    (find_numeric_scale_text_zero_division unit
       (fun _ => text_of "Scale 1:0") (fun _ => None) (fun _ => (800, 1000))
       (fun _ _ _ _ _ => []) tt _)))).
  left. exists (text_of "0"). split; vm_compute; reflexivity.
Defined.
End ScaleTextExamples.

(** ** The graphic scale bar *)

Section ScaleBarFacts.
Import PyNum ScaleDetection.

(** The unit alternation never yields [mm]: a text that starts with
    [mm] starts with [m], the alternative tried first. *)
Lemma first_alt_unit (s rest : list ascii) (u : string) :
  first_alt unit_alternatives s = Some (u, rest) ->
  u ∈ ["m"; "cm"; "ft"; "'"]%string.
Proof.
  unfold unit_alternatives. cbn [first_alt].
  destruct (strip_prefix (String.list_ascii_of_string "m") s) eqn:Em.
  { intros [= <- <-]. set_solver. }
  destruct (strip_prefix (String.list_ascii_of_string "mm") s) eqn:Emm.
  { exfalso.
    change (String.list_ascii_of_string "m") with ["m"%char] in Em.
    change (String.list_ascii_of_string "mm") with ["m"%char; "m"%char] in Emm.
    destruct s as [| c s]; [discriminate Emm |].
    cbn [strip_prefix] in Em, Emm.
    destruct (Ascii.eqb "m" c); discriminate. }
  destruct (strip_prefix (String.list_ascii_of_string "cm") s).
  { intros [= <- <-]. set_solver. }
  destruct (strip_prefix (String.list_ascii_of_string "ft") s).
  { intros [= <- <-]. set_solver. }
  destruct (strip_prefix (String.list_ascii_of_string "'") s).
  { intros [= <- <-]. set_solver. }
  discriminate.
Qed.

Lemma label_at_unit (s num rest : list ascii) (u : string) :
  label_at s = Some (num, u, rest) -> u ∈ ["m"; "cm"; "ft"; "'"]%string.
Proof.
  unfold label_at. destruct (digits1 s) as [[ip s1] |]; [| discriminate].
  cbn [mbind option_bind].
  destruct (match s1 with [] => _ | _ :: _ => _ end) as [num' s2].
  destruct (first_alt unit_alternatives (spaces s2)) as [[u' r] |] eqn:E;
    cbn [mbind option_bind]; [| discriminate].
  intros [= _ <- _]. eapply first_alt_unit, E.
Qed.
End ScaleBarFacts.

Section ScaleBarUnits.
Import PyNum ScaleDetection Fixtures.

Lemma findall_from_units (s : list ascii) :
  forall (skip : nat) (num : list ascii) (u : string),
    (num, u) ∈ findall_from skip s -> u ∈ ["m"; "cm"; "ft"; "'"]%string.
Proof.
  induction s as [| c s IH]; intros skip num u.
  - destruct skip; cbn; intros H; inversion H.
  - destruct skip as [| k]; cbn [findall_from]; [| apply IH].
    destruct (label_at (c :: s)) as [[[num' u'] rest] |] eqn:E; [| apply IH].
    intros H. apply elem_of_cons in H as [[= -> ->] | H]; [| eapply IH, H].
    eapply label_at_unit, E.
Qed.

(** C5, on the code: the label pattern never yields the unit [mm] nor
    an inch unit, although [convert_to_mm] converts both.  A bar of 100
    pixels labelled [0 mm] and [100 mm] is given 1000 mm per pixel, the
    labels being read as metres, where the span of 100 mm over 100
    pixels is 1; a bar labelled in inches gives no scale; a bar labelled
    in centimetres is read as labelled. *)
Theorem graphic_scale_bar_misreads_units :
  (forall (text num : list ascii) (u : string),
      (num, u) ∈ findall_labels text -> u ∈ ["m"; "cm"; "ft"; "'"]%string)
  /\ convert_to_mm 100 "mm" = Some 100%Q
  /\ convert_to_mm 10 "in" = Some (10 * (254 # 10))%Q
  /\ findall_labels (text_of "0 mm 100 mm")
     = [(text_of "0", "m"%string); (text_of "100", "m"%string)]
  /\ (exists w, bar_page "0 mm 100 mm" = Some w /\ (w == 1000)%Q)
  /\ bar_page "0 in 10 in" = None
  /\ (exists w, bar_page "0 cm 50 cm" = Some w /\ (w == 5)%Q).
Proof.
  split; [intros text num u; apply findall_from_units |].
  split; [reflexivity |]. split; [reflexivity |].
  split; [vm_compute; reflexivity |].
  split; [eexists; split; vm_compute; reflexivity |].
  split; [vm_compute; reflexivity |].
  eexists; split; vm_compute; reflexivity.
Qed.
End ScaleBarUnits.

(** ** The page loop *)

Section PageLoop.
Import Measurement Cli.
Context `{V : Vision}.
Variable path : Type.
Variable imread : path -> option image.
Variable path_name : path -> string.
Variable hough_lines : image -> option (list (Q * Q)).
Variable histogram : list Q -> list Z.
Variable abs_cos abs_sin : Q -> Q.
Variable warpAffine : image -> Preprocessing.Rotation -> image.
Variable page_text : image -> list ascii.
Variable hough_lines_p : image -> option (list bbox).
Variable band_text : image -> Z -> Z -> Z -> Z -> list ascii.
Variable detect : image -> result (list door_dict).
Variable create_visual_report : image -> list door_dict -> Q -> result unit.
Variable min_width_mm : Q.

Let deskew := deskew_image hough_lines histogram abs_cos abs_sin warpAffine.
Let page_result :=
  process_page path imread path_name hough_lines histogram abs_cos abs_sin warpAffine
    page_text hough_lines_p band_text detect create_visual_report
    min_width_mm.
Let pages_from :=
  process_pages path imread path_name hough_lines histogram abs_cos abs_sin warpAffine
    page_text hough_lines_p band_text detect create_visual_report
    min_width_mm.
Let pdf :=
  process_pdf path imread path_name hough_lines histogram abs_cos abs_sin warpAffine
    page_text hough_lines_p band_text detect create_visual_report
    min_width_mm.

Lemma process_pages_acc (ps : list path) :
  forall (i : Z) (d : list door_dict) (l : list log_event),
    pages_from i ps d l
    = (d ++ fst (pages_from i ps [] []), l ++ snd (pages_from i ps [] [])).
Proof.
  subst pages_from.
  induction ps as [| p ps IH]; intros i d l; cbn [process_pages].
  - now rewrite !app_nil_r.
  - destruct (process_page _ _ _ _ _ _ _ _ _ _ _ _ _ _ i p) as [[ds |] | e].
    + rewrite (IH (i + 1) (d ++ ds) l), (IH (i + 1) ([] ++ ds) []).
      cbn [fst snd app]. now rewrite app_assoc.
    + rewrite (IH (i + 1) d (l ++ _)), (IH (i + 1) [] ([] ++ _)).
      cbn [fst snd app]. now rewrite <- app_assoc.
    + rewrite (IH (i + 1) d (l ++ _)), (IH (i + 1) [] ([] ++ _)).
      cbn [fst snd app]. now rewrite <- app_assoc.
Qed.

Lemma process_pages_app (xs ys : list path) :
  forall (i : Z) (d : list door_dict) (l : list log_event),
    pages_from i (xs ++ ys) d l
    = pages_from (i + Z.of_nat (length xs)) ys
        (fst (pages_from i xs d l)) (snd (pages_from i xs d l)).
Proof.
  subst pages_from.
  induction xs as [| x xs IH]; intros i d l; cbn [process_pages app length].
  - now rewrite Z.add_0_r.
  - replace (i + Z.of_nat (S (length xs))) with (i + 1 + Z.of_nat (length xs))
      by lia.
    destruct (process_page _ _ _ _ _ _ _ _ _ _ _ _ _ _ i x) as [[ds |] | e];
      apply IH.
Qed.

End PageLoop.

Section PageLoopExample.
Import Measurement ScaleDetection Cli Fixtures.


Example three_pages_two_measured :
  length (fst (run_pages 0 [1; 2; 3]%nat)) = 2%nat
  /\ snd (run_pages 0 [1; 2; 3]%nat) = [WarnNoScale 2].
Proof. split; vm_compute; reflexivity. Qed.
End PageLoopExample.

(** ** Suppression of overlapping hits *)

Section Suppression.
Import PyNum DoorDetection.

Lemma inter_area_bounds (b1 b2 : bbox) :
  well_formed b1 -> well_formed b2 ->
  0 <= inter_area b1 b2 <= box_area b1 /\ 0 < box_area b2.
Proof.
  destruct b1 as [[[x1 y1] x2] y2], b2 as [[[x1' y1'] x2'] y2'].
  unfold well_formed, inter_area, box_area. intros [Hx Hy] [Hx' Hy'].
  set (w := Z.max 0 (Z.min x2 x2' - Z.max x1 x1')).
  set (h := Z.max 0 (Z.min y2 y2' - Z.max y1 y1')).
  assert (0 <= w <= x2 - x1) by (subst w; lia).
  assert (0 <= h <= y2 - y1) by (subst h; lia).
  split; [split |]; nia.
Qed.

(** On well-formed boxes [_box_overlap] returns, and decides
    [IoU > 0.5]. *)
Lemma box_overlap_IoU (b1 b2 : bbox) :
  well_formed b1 -> well_formed b2 ->
  _box_overlap b1 b2 = Ok (lt (1 # 2) (IoU b1 b2)).
Proof.
  intros H1 H2. pose proof (inter_area_bounds b1 b2 H1 H2) as [Hi Ha].
  unfold IoU. revert Hi Ha.
  destruct b1 as [[[x1 y1] x2] y2], b2 as [[[x1' y1'] x2'] y2'].
  unfold _box_overlap, inter_area, box_area.
  destruct ((Z.min x2 x2' <? Z.max x1 x1') || (Z.min y2 y2' <? Z.max y1 y1'))
    eqn:E; intros Hi Ha.
  - assert (Hz : Z.max 0 (Z.min x2 x2' - Z.max x1 x1')
                 * Z.max 0 (Z.min y2 y2' - Z.max y1 y1') = 0).
    { apply orb_true_iff in E as [E | E]; apply Z.ltb_lt in E; nia. }
    rewrite Hz.
    assert (Hf : lt (1 # 2)
                   (inject_Z 0
                    / inject_Z ((x2 - x1) * (y2 - y1)
                                + (x2' - x1') * (y2' - y1') - 0)) = false).
    { apply lt_false. unfold Qdiv. rewrite Qmult_0_l. discriminate. }
    now rewrite Hf.
  - apply orb_false_iff in E as [Ex Ey].
    apply Z.ltb_ge in Ex, Ey.
    rewrite (Z.max_r 0 (Z.min x2 x2' - Z.max x1 x1')) in * by lia.
    rewrite (Z.max_r 0 (Z.min y2 y2' - Z.max y1 y1')) in * by lia.
    rewrite truediv_nonzero; [reflexivity |].
    change 0%Q with (inject_Z 0). rewrite inject_Z_injective. lia.
Qed.

Lemma merge_hit_replaces (new_box : bbox) (match_val : Q) :
  well_formed new_box ->
  forall (doors : list candidate) (i : nat) (existing : candidate),
    Forall (fun c => well_formed (c_bbox c)) doors ->
    doors !! i = Some existing ->
    (1 # 2 < IoU new_box (c_bbox existing))%Q ->
    (forall j other, (j < i)%nat -> doors !! j = Some other ->
                     (IoU new_box (c_bbox other) <= 1 # 2)%Q) ->
    merge_hit new_box match_val doors
    = Ok (<[i := keep_higher existing new_box match_val]> doors).
Proof.
  intros Hnew doors. induction doors as [| d doors IH];
    intros i existing Hwf Hi Hov Hbefore; [discriminate Hi |].
  apply Forall_cons in Hwf as [Hd Hwf]. cbn [merge_hit].
  rewrite (box_overlap_IoU _ _ Hnew Hd). cbn [bind].
  destruct i as [| i].
  - injection Hi as ->. apply lt_true in Hov. rewrite Hov.
    unfold keep_higher, hit. cbn [insert list_insert].
    destruct (lt (c_confidence existing) match_val); reflexivity.
  - assert (Hd' : lt (1 # 2) (IoU new_box (c_bbox d)) = false).
    { apply lt_false. apply (Hbefore 0%nat d); [lia | reflexivity]. }
    rewrite Hd'.
    rewrite (IH i existing Hwf Hi Hov).
    + reflexivity.
    + intros j other Hj Hl. apply (Hbefore (S j) other); [lia | exact Hl].
Qed.

Lemma merge_hit_appends (new_box : bbox) (match_val : Q) :
  well_formed new_box ->
  forall doors : list candidate,
    Forall (fun c => well_formed (c_bbox c)) doors ->
    (forall other, other ∈ doors -> (IoU new_box (c_bbox other) <= 1 # 2)%Q) ->
    merge_hit new_box match_val doors = Ok (doors ++ [hit new_box match_val]).
Proof.
  intros Hnew doors. induction doors as [| d doors IH]; intros Hwf Hall;
    [reflexivity |].
  apply Forall_cons in Hwf as [Hd Hwf]. cbn [merge_hit].
  rewrite (box_overlap_IoU _ _ Hnew Hd). cbn [bind].
  assert (Hd' : lt (1 # 2) (IoU new_box (c_bbox d)) = false).
  { apply lt_false. apply Hall. apply list_elem_of_here. }
  rewrite Hd', IH; [reflexivity | exact Hwf |].
  intros other Ho. apply Hall. now apply list_elem_of_further.
Qed.
End Suppression.

Section GreedySuppression.
Import PyNum DoorDetection.

Lemma hit_box_well_formed (th tw x1 y1 : Z) :
  0 < th -> 0 < tw -> well_formed (hit_box th tw x1 y1).
Proof. unfold well_formed, hit_box. lia. Qed.

(** C6, as amended: [TemplateDoorDetector.detect] runs the raw hits of
    a template, the responses at or above 0.6, through the accepted list
    one by one.  A hit whose box has IoU above 0.5 with an accepted
    candidate is merged into the first such candidate in the order of
    acceptance, and into that one only: its box and score become the
    hit's exactly when the hit's score is higher, the list keeping its
    length.  A hit whose box has IoU at most 0.5 with every accepted
    candidate is appended.  So of two hits taken from an empty list, the
    second collapses into the first when their IoU is above 0.5, the
    entry keeping the geometry of the higher score, and both stay when
    it is at most 0.5. *)
Theorem template_hits_suppressed_greedily
    (p : pass) (doors : list candidate) (x1 y1 : Z) (v : Q) :
  0 < template_h p -> 0 < template_w p ->
  Forall (fun c => well_formed (c_bbox c)) doors ->
  (forall edges_h edges_w : Z,
     fits edges_h edges_w p ->
     detect edges_h edges_w [p]
     = merge_hits (template_h p) (template_w p) (raw_hits p) [])
  /\ ((x1, y1, v) ∈ raw_hits p
     <-> (x1, y1, v) ∈ response p /\ (6 # 10 <= v)%Q)
  /\ (forall (i : nat) (existing : candidate),
        doors !! i = Some existing ->
        (1 # 2 < IoU (hit_box (template_h p) (template_w p) x1 y1)
                     (c_bbox existing))%Q ->
        (forall j other, (j < i)%nat -> doors !! j = Some other ->
           (IoU (hit_box (template_h p) (template_w p) x1 y1)
                (c_bbox other) <= 1 # 2)%Q) ->
        merge_hits (template_h p) (template_w p) [(x1, y1, v)] doors
        = Ok (<[i := keep_higher existing
                       (hit_box (template_h p) (template_w p) x1 y1) v]>
                doors))
  /\ ((forall other, other ∈ doors ->
         (IoU (hit_box (template_h p) (template_w p) x1 y1)
              (c_bbox other) <= 1 # 2)%Q) ->
      merge_hits (template_h p) (template_w p) [(x1, y1, v)] doors
      = Ok (doors
            ++ [hit (hit_box (template_h p) (template_w p) x1 y1) v]))
  /\ (forall (x2 y2 : Z) (v2 : Q),
        merge_hits (template_h p) (template_w p)
          [(x1, y1, v); (x2, y2, v2)] []
        = Ok (if lt (1 # 2)
                   (IoU (hit_box (template_h p) (template_w p) x2 y2)
                        (hit_box (template_h p) (template_w p) x1 y1))
              then [keep_higher
                      (hit (hit_box (template_h p) (template_w p) x1 y1) v)
                      (hit_box (template_h p) (template_w p) x2 y2) v2]
              else [hit (hit_box (template_h p) (template_w p) x1 y1) v;
                    hit (hit_box (template_h p) (template_w p) x2 y2) v2])).
Proof.
  intros Hh Hw Hwf.
  pose proof (hit_box_well_formed _ _ x1 y1 Hh Hw) as Hnew.
  split; [| split; [| split; [| split]]].
  - intros edges_h edges_w [Hfh Hfw]. unfold detect. cbn [detect_passes].
    assert (E : (edges_h <? template_h p) || (edges_w <? template_w p)
                = false).
    { apply orb_false_iff. split; apply Z.ltb_ge; assumption. }
    rewrite E. now destruct (merge_hits _ _ _ _).
  - unfold raw_hits. rewrite list_elem_of_filter. cbn [snd].
    unfold threshold. rewrite Qle_bool_iff. tauto.
  - intros i existing Hi Hov Hbefore. cbn [merge_hits].
    fold (hit_box (template_h p) (template_w p) x1 y1).
    now rewrite (merge_hit_replaces _ v Hnew doors i existing).
  - intros Hall. cbn [merge_hits].
    fold (hit_box (template_h p) (template_w p) x1 y1).
    now rewrite (merge_hit_appends _ v Hnew doors).
  - intros x2 y2 v2. cbn [merge_hits merge_hit bind].
    fold (hit_box (template_h p) (template_w p) x1 y1).
    fold (hit_box (template_h p) (template_w p) x2 y2).
    rewrite box_overlap_IoU;
      [| now apply hit_box_well_formed | exact Hnew].
    cbn [bind c_bbox c_confidence]. unfold keep_higher, hit.
    cbn [c_confidence].
    destruct (lt (1 # 2) _); [destruct (lt v v2) |]; reflexivity.
Qed.
End GreedySuppression.

Section GreedySuppressionExamples.
Import PyNum DoorDetection Fixtures.

Lemma template_hits_suppressed_greedily_witness :
  merge_hits 50 50 [(110, 100, 9 # 10)] [hit (100, 100, 150, 150) (7 # 10)]
  = Ok [hit (110, 100, 160, 150) (9 # 10)].
Proof.
  refine (proj1 (proj2 (proj2
    (template_hits_suppressed_greedily frame_pass
       [hit (100, 100, 150, 150) (7 # 10)] 110 100 (9 # 10) _ _ _)))
    0%nat (hit (100, 100, 150, 150) (7 # 10)) eq_refl _ _).
  - reflexivity.
  - reflexivity.
  - repeat constructor.
  - vm_compute. reflexivity.
  - intros j other Hj. lia.
Defined.

(** C6, as stated, fails: a hit is not merged into every accepted
    candidate it overlaps.  With (0, 0, 40, 40) scoring 0.95 and
    (20, 0, 60, 40) scoring 0.70 accepted, the hit (10, 1, 50, 41)
    scoring 0.90 has IoU 117/203 with either; the scan stops at the
    first, which scores higher, and the second keeps its box and score
    although the hit scores higher than it. *)
Lemma overlapped_candidate_not_always_replaced :
  ~ (forall (th tw x1 y1 : Z) (v : Q) (doors : list candidate) (i : nat)
            (existing : candidate),
       0 < th -> 0 < tw ->
       Forall (fun c => well_formed (c_bbox c)) doors ->
       doors !! i = Some existing ->
       (1 # 2 < IoU (hit_box th tw x1 y1) (c_bbox existing))%Q ->
       merge_hits th tw [(x1, y1, v)] doors
       = Ok (<[i := keep_higher existing (hit_box th tw x1 y1) v]> doors)).
Proof.
  intros H.
  specialize (H 40 40 10 1 (9 # 10)%Q
                [hit (0, 0, 40, 40) (95 # 100); hit (20, 0, 60, 40) (7 # 10)]
                1%nat (hit (20, 0, 60, 40) (7 # 10))).
  assert (Hwf : Forall (fun c => well_formed (c_bbox c))
                  [hit (0, 0, 40, 40) (95 # 100);
                   hit (20, 0, 60, 40) (7 # 10)]).
  { repeat constructor. }
  specialize (H eq_refl eq_refl Hwf eq_refl eq_refl).
  vm_compute in H. discriminate H.
Qed.

(** A run can end with two accepted boxes of IoU above 0.5: the third
    hit of [crowded_pass] replaces the first entry and then overlaps the
    second. *)
Example crowded_pass_detection :
  detect 800 1000 [crowded_pass]
  = Ok [hit (10, 1, 50, 41) (9 # 10); hit (20, 0, 60, 40) (7 # 10)]
  /\ (1 # 2 < IoU (10, 1, 50, 41)%Z (20, 0, 60, 40)%Z)%Q.
Proof. split; vm_compute; reflexivity. Qed.

Example frame_pass_detection :
  detect 800 1000 [frame_pass]
  = Ok [hit (110, 100, 160, 150) (9 # 10); hit (300, 300, 350, 350) (8 # 10)].
Proof. vm_compute. reflexivity. Qed.
End GreedySuppressionExamples.

(** ** Deskewing *)

Section DeskewFacts.
Import PyNum Preprocessing.

Lemma kept_none (thetas : list Q) :
  Forall (fun t => qualifies t = false) thetas ->
  filter (fun theta => qualifies theta = true) thetas = [].
Proof.
  induction 1 as [| t ts Ht _ IH]; [reflexivity |].
  rewrite filter_cons_False; [exact IH |]. now rewrite Ht.
Qed.

Section OnImage.
Variable image : Type.
Variable hough_lines : image -> option (list (Q * Q)).
Variable histogram : list Q -> list Z.
Variable degrees : Q -> Q.
Variable shape_hw : image -> Z * Z.
Variable abs_cos abs_sin : Q -> Q.
Variable warpAffine : image -> Rotation -> image.

Let deskew :=
  deskew_image image hough_lines histogram degrees shape_hw abs_cos abs_sin
    warpAffine.
Let rotation := rotation_for image shape_hw abs_cos abs_sin.

(** C7, the code on an upright page: [cv2.HoughLines] finds one
    vertical line (angle 0) and two horizontal ones (angle pi/2), all
    three kept.  [np.histogram(angles, bins=180)] is given no range, so
    its 180 bins span the data from the smallest angle to the largest:
    the vertical line falls in bin 0 and the horizontal lines in bin
    179.  Line 82 reads the index 179 as a number of degrees, and with
    [np.degrees] returning a number within half a degree of 179 the
    page is turned by [90 - 179], about -89 degrees: neither by the
    skew of the page, which is 0, nor by the bin of one degree that
    holds most angles, which is 90. *)
Theorem deskew_image_turns_upright_page (img : image) (rho1 rho2 rho3 : Q) :
  hough_lines img = Some [(rho1, 0); (rho2, 90); (rho3, 90)]%Q ->
  histogram [0; 90; 90]%Q = ends_counts ->
  (357 # 2 <= degrees (dominant_angle 179) <= 359 # 2)%Q ->
  exists a,
    deskew img = (warpAffine img (rotation img a), a)
    /\ argmax (histogram (kept_angles [(rho1, 0); (rho2, 90); (rho3, 90)]%Q))
       = 179
    /\ a = sub 90 (degrees (dominant_angle 179))
    /\ (- (179 # 2) <= a <= - (177 # 2))%Q.
Proof.
  intros Hl Hh [Hlo Hhi]. subst deskew rotation. unfold deskew_image.
  rewrite Hl.
  assert (Hk : kept_angles [(rho1, 0); (rho2, 90); (rho3, 90)]%Q
               = [0; 90; 90]%Q) by reflexivity.
  rewrite Hk. unfold rotate_angle_of. rewrite Hh.
  assert (Ha : argmax ends_counts = 179) by (vm_compute; reflexivity).
  rewrite Ha.
  set (d := degrees (dominant_angle 179)) in *.
  assert (Hf : fold_angle d = sub 90 d).
  { unfold fold_angle.
    assert (E : lt 45 d = true) by (apply lt_true; lra).
    now rewrite E. }
  rewrite Hf. exists (sub 90 d).
  split; [reflexivity |]. split; [reflexivity |]. split; [reflexivity |].
  unfold sub. split.
  - apply Qle_trans with (b64 (- (179 # 2))); [vm_compute; discriminate |].
    apply b64_mono. lra.
  - apply Qle_trans with (b64 (- (177 # 2))); [| vm_compute; discriminate].
    apply b64_mono. lra.
Qed.
End OnImage.
End DeskewFacts.

Section DeskewExamples.
Import PyNum Preprocessing Fixtures.

Lemma deskew_image_turns_upright_page_witness :
  exists a,
    deskew_lines [(100, 0); (200, 90); (300, 90)]%Q ends_counts 179 = (tt, a)
    /\ (- (179 # 2) <= a <= - (177 # 2))%Q.
Proof.
  destruct (deskew_image_turns_upright_page unit
              (fun _ => Some [(100, 0); (200, 90); (300, 90)]%Q)
              (fun _ => ends_counts) (fun _ => 179%Q) (fun _ => (800, 1000))
              (fun _ => 1%Q) (fun _ => 0%Q) (fun img _ => img) tt
              100 200 300 eq_refl eq_refl)
    as (a & Hd & _ & _ & Hr).
  - vm_compute. split; discriminate.
  - exists a. split; [exact Hd | exact Hr].
Defined.

(** With [np.degrees] exact on 179 degrees the angle applied is -89. *)
Example upright_page_turned :
  (snd (deskew_lines [(100, 0); (200, 90); (300, 90)]%Q ends_counts 179)
   == -89)%Q.
Proof. vm_compute. reflexivity. Qed.
End DeskewExamples.

(** * Further properties of the code *)

(** ** The baseline measurement: keys, symmetry, order *)

Section BaselineFurther.
Import PyNum Measurement.

(** [door_width_mm] raises [KeyError] on a door without [bbox]; on a door
    with one it returns the door with exactly the keys [width_mm] and
    [is_compliant] added or overwritten, every other entry as it was. *)
Theorem door_width_mm_touches_two_keys (door : door_dict) (s t : Q) :
  (door !! "bbox" = None -> door_width_mm door s t = Raise KeyError)
  /\ (forall b, door !! "bbox" = Some (VBox b) ->
        exists r,
          door_width_mm door s t = Ok r
          /\ dom r = dom door ∪ {["width_mm"; "is_compliant"]}
          /\ (forall k : string,
                k <> "width_mm"%string -> k <> "is_compliant"%string ->
                r !! k = door !! k)).
Proof.
  split.
  - intros Hb. unfold door_width_mm. now rewrite Hb.
  - intros b Hb. rewrite (door_width_mm_ok door b s t Hb).
    eexists. split; [reflexivity |]. split.
    + rewrite !dom_insert_L. apply set_eq. intros k.
      rewrite !elem_of_union, !elem_of_singleton. tauto.
    + intros k Hw Hc. now rewrite !lookup_insert_ne by congruence.
Qed.

Lemma leaf_width_px_symmetry (x1 y1 x2 y2 : Z) :
  leaf_width_px (x2, y2, x1, y1) = leaf_width_px (x1, y1, x2, y2)
  /\ leaf_width_px (y1, x1, y2, x2) = leaf_width_px (x1, y1, x2, y2).
Proof. unfold leaf_width_px. lia. Qed.

(** The baseline width does not depend on which corner of the box comes
    first nor on which axis is which: doors whose boxes are
    [(x1, y1, x2, y2)], [(x2, y2, x1, y1)] and [(y1, x1, y2, x2)] get the
    same [width_mm] and the same [is_compliant]; and the leaf width is 0
    exactly for a box with an empty side. *)
Theorem door_width_mm_box_symmetry
    (d d1 d2 : door_dict) (x1 y1 x2 y2 : Z) (s t : Q) :
  d !! "bbox" = Some (VBox (x1, y1, x2, y2)) ->
  d1 !! "bbox" = Some (VBox (x2, y2, x1, y1)) ->
  d2 !! "bbox" = Some (VBox (y1, x1, y2, x2)) ->
  exists r r1 r2,
    door_width_mm d s t = Ok r
    /\ door_width_mm d1 s t = Ok r1
    /\ door_width_mm d2 s t = Ok r2
    /\ r1 !! "width_mm" = r !! "width_mm"
    /\ r2 !! "width_mm" = r !! "width_mm"
    /\ r1 !! "is_compliant" = r !! "is_compliant"
    /\ r2 !! "is_compliant" = r !! "is_compliant"
    /\ (leaf_width_px (x1, y1, x2, y2) = 0 <-> x1 = x2 \/ y1 = y2).
Proof.
  intros H H1 H2.
  destruct (baseline_records d _ s t H) as (r & Hr & [Hw Hc] & _).
  destruct (baseline_records d1 _ s t H1) as (r1 & Hr1 & [Hw1 Hc1] & _).
  destruct (baseline_records d2 _ s t H2) as (r2 & Hr2 & [Hw2 Hc2] & _).
  destruct (leaf_width_px_symmetry x1 y1 x2 y2) as [E1 E2].
  rewrite E1 in Hw1, Hc1. rewrite E2 in Hw2, Hc2.
  exists r, r1, r2.
  split; [exact Hr |]. split; [exact Hr1 |]. split; [exact Hr2 |].
  split; [now rewrite Hw1, Hw |]. split; [now rewrite Hw2, Hw |].
  split; [now rewrite Hc1, Hc |]. split; [now rewrite Hc2, Hc |].
  unfold leaf_width_px. lia.
Qed.

Lemma door_width_mm_box_symmetry_witness :
  exists r r1 r2,
    door_width_mm (Fixtures.door_at (100, 100, 140, 220)) 5 900 = Ok r
    /\ door_width_mm (Fixtures.door_at (140, 220, 100, 100)) 5 900 = Ok r1
    /\ door_width_mm (Fixtures.door_at (100, 100, 220, 140)) 5 900 = Ok r2
    /\ r1 !! "width_mm" = r !! "width_mm"
    /\ r2 !! "width_mm" = r !! "width_mm".
Proof.
  destruct (door_width_mm_box_symmetry
              (Fixtures.door_at (100, 100, 140, 220))
              (Fixtures.door_at (140, 220, 100, 100))
              (Fixtures.door_at (100, 100, 220, 140))
              100 100 140 220 5 900 eq_refl eq_refl eq_refl)
    as (r & r1 & r2 & H & H1 & H2 & E1 & E2 & _).
  exists r, r1, r2. repeat split; assumption.
Defined.

(** For a non-negative scale, a wider leaf never gets a smaller stored
    [width_mm], and a compliant door stays compliant when its leaf grows:
    [is_compliant] never flips from true to false as the width
    increases. *)
Theorem door_width_mm_monotone
    (d d' : door_dict) (b b' : bbox) (s t : Q) :
  d !! "bbox" = Some (VBox b) ->
  d' !! "bbox" = Some (VBox b') ->
  (0 <= s)%Q ->
  leaf_width_px b <= leaf_width_px b' ->
  exists r r' w w' c c',
    door_width_mm d s t = Ok r
    /\ door_width_mm d' s t = Ok r'
    /\ r !! "width_mm" = Some (VFloat w)
    /\ r' !! "width_mm" = Some (VFloat w')
    /\ r !! "is_compliant" = Some (VBool c)
    /\ r' !! "is_compliant" = Some (VBool c')
    /\ (w <= w')%Q
    /\ (c = true -> c' = true).
Proof.
  intros H H' Hs Hle.
  destruct (baseline_records d _ s t H) as (r & Hr & [Hw Hc] & _).
  destruct (baseline_records d' _ s t H') as (r' & Hr' & [Hw' Hc'] & _).
  assert (Hprod : (mul (of_int (leaf_width_px b)) s
                   <= mul (of_int (leaf_width_px b')) s)%Q).
  { apply b64_mono. apply Qmult_le_compat_r; [| exact Hs].
    apply b64_mono. now rewrite <- Zle_Qle. }
  eexists r, r', _, _, _, _.
  repeat (split; [eassumption |]). split.
  - now apply round1_mono.
  - intros Hc1. apply ge_true in Hc1. apply ge_true. lra.
Qed.

Lemma door_width_mm_monotone_witness :
  exists r r' w w',
    door_width_mm (Fixtures.door_at (100, 100, 140, 220)) 5 900 = Ok r
    /\ door_width_mm (Fixtures.door_at (0, 0, 190, 800)) 5 900 = Ok r'
    /\ r !! "width_mm" = Some (VFloat w)
    /\ r' !! "width_mm" = Some (VFloat w')
    /\ (w <= w')%Q.
Proof.
  destruct (door_width_mm_monotone
              (Fixtures.door_at (100, 100, 140, 220))
              (Fixtures.door_at (0, 0, 190, 800))
              (100, 100, 140, 220) (0, 0, 190, 800) 5 900 eq_refl eq_refl)
    as (r & r' & w & w' & c & c' & H & H' & Hw & Hw' & _ & _ & Hle & _).
  - discriminate.
  - vm_compute. discriminate.
  - exists r, r', w, w'. repeat split; assumption.
Defined.
End BaselineFurther.

(** ** The refined measurement: keys and the angle *)

Section RefinedFurther.
Import PyNum Measurement.
Context `{V : Vision}.

Lemma orientation_deg_range (m : Moments) :
  (0 <= orientation_deg m <= 180)%Q.
Proof.
  unfold orientation_deg. apply fmod_range; [reflexivity |].
  vm_compute. reflexivity.
Qed.

(** [refine_door_measurement] raises [KeyError] on a door without [bbox].
    On a door with one it returns the door with [width_mm] and
    [is_compliant] set, every entry other than these and [angle_deg] as it
    was; and when the door had no [angle_deg], any [angle_deg] of the
    record lies between 0 and 180 inclusive (the orientation is a
    remainder modulo 180; rounded to one decimal it can be 180.0). *)
Theorem refine_door_measurement_record
    (img : image) (door : door_dict) (s t : Q) :
  (door !! "bbox" = None ->
   refine_door_measurement img door s t = Raise KeyError)
  /\ (forall b, door !! "bbox" = Some (VBox b) ->
        exists r,
          refine_door_measurement img door s t = Ok r
          /\ is_Some (r !! "width_mm")
          /\ is_Some (r !! "is_compliant")
          /\ (forall k : string,
                k <> "width_mm"%string -> k <> "is_compliant"%string ->
                k <> "angle_deg"%string -> r !! k = door !! k)
          /\ (door !! "angle_deg" = None ->
              forall a, r !! "angle_deg" = Some (VFloat a) ->
                        (0 <= a <= 180)%Q)).
Proof.
  split.
  - intros Hb. unfold refine_door_measurement. now rewrite Hb.
  - intros b Hb. rewrite (refine_cases img door b s t Hb).
    destruct (_ || _).
    + rewrite (door_width_mm_ok door b s t Hb). eexists.
      split; [reflexivity |].
      split; [rewrite lookup_insert_ne by done; rewrite lookup_insert_eq; eauto |].
      split; [rewrite lookup_insert_eq; eauto |]. split.
      * intros k Hw Hc _. now rewrite !lookup_insert_ne by congruence.
      * intros Hnone a Ha. rewrite !lookup_insert_ne in Ha by done.
        congruence.
    + eexists. split; [reflexivity |].
      unfold refined_measurement, refined_record.
      split; [rewrite !lookup_insert_ne by done; rewrite lookup_insert_eq; eauto |].
      split; [rewrite lookup_insert_ne by done; rewrite lookup_insert_eq; eauto |].
      split.
      * intros k Hw Hc Ha. now rewrite !lookup_insert_ne by congruence.
      * intros _ a Ha. rewrite lookup_insert_eq in Ha. injection Ha as <-.
        pose proof (orientation_deg_range (region_moments img b)) as [Hlo Hhi].
        split.
        -- apply round1_ge;
             [exists 0; reflexivity | reflexivity | exact Hlo].
        -- apply round1_le;
             [exists 1800; reflexivity | vm_compute; reflexivity | exact Hhi].
Qed.
End RefinedFurther.

Section RefinedFurtherExamples.
Import PyNum Measurement Fixtures.

(** An orientation of 179.96 degrees is recorded as 180.0. *)
Example refined_angle_reaches_180 :
  exists r a,
    @refine_door_measurement (tilted_vision (17996 # 100)) (page upright)
      (door_at (100, 100, 140, 220)) 5 900 = Ok r
    /\ r !! "angle_deg" = Some (VFloat a) /\ (a == 180)%Q.
Proof. eexists _, _. split; [reflexivity |]. split; vm_compute; reflexivity. Qed.
End RefinedFurtherExamples.


(** ** The scale bar: candidates *)

Section ScaleBarCandidates.
Import PyNum ScaleDetection.

Lemma horizontal_lines_spec (lines : list bbox) (h : hline) :
  h ∈ horizontal_lines lines <-> kept_segment lines h.
Proof.
  unfold kept_segment. induction lines as [| [[[x1 y1] x2] y2] lines IH];
    cbn [horizontal_lines].
  - split; [intros H; inversion H |].
    intros (? & ? & ? & ? & H & _). inversion H.
  - assert (Hrest : h ∈ horizontal_lines lines ->
              exists a1 b1 a2 b2,
                (a1, b1, a2, b2) ∈ (x1, y1, x2, y2) :: lines
                /\ Z.abs (b2 - b1) < 5 /\ 50 < Z.abs (a2 - a1)
                /\ h = (a1, b1, a2, b2, Z.abs (a2 - a1))).
    { intros H. apply IH in H as (a1 & b1 & a2 & b2 & Hin & Hrest).
      exists a1, b1, a2, b2. split; [now apply list_elem_of_further | exact Hrest]. }
    destruct (Z.abs (y2 - y1) <? 5) eqn:Ey;
      [destruct (50 <? Z.abs (x2 - x1)) eqn:Ex |].
    + split.
      * intros H. apply elem_of_cons in H as [-> | H]; [| now apply Hrest].
        exists x1, y1, x2, y2. apply Z.ltb_lt in Ey, Ex.
        split; [apply list_elem_of_here | auto].
      * intros (a1 & b1 & a2 & b2 & Hin & Hy & Hx & ->).
        apply elem_of_cons in Hin as [[= -> -> -> ->] | Hin];
          [apply list_elem_of_here |].
        apply list_elem_of_further, IH. exists a1, b1, a2, b2. auto.
    + split; [exact Hrest |].
      intros (a1 & b1 & a2 & b2 & Hin & Hy & Hx & ->).
      apply elem_of_cons in Hin as [[= -> -> -> ->] | Hin].
      * apply Z.ltb_ge in Ex. lia.
      * apply IH. exists a1, b1, a2, b2. auto.
    + split; [exact Hrest |].
      intros (a1 & b1 & a2 & b2 & Hin & Hy & Hx & ->).
      apply elem_of_cons in Hin as [[= -> -> -> ->] | Hin].
      * apply Z.ltb_ge in Ey. lia.
      * apply IH. exists a1, b1, a2, b2. auto.
Qed.

Lemma insert_desc_perm (x : hline) (l : list hline) :
  insert_desc x l ≡ₚ x :: l.
Proof.
  induction l as [| y l IH]; cbn [insert_desc]; [reflexivity |].
  destruct (hline_length y <=? hline_length x); [reflexivity |].
  rewrite IH. apply Permutation_swap.
Qed.

Lemma sort_desc_perm (l : list hline) : sort_desc l ≡ₚ l.
Proof.
  unfold sort_desc. induction l as [| x l IH]; cbn [foldr]; [reflexivity |].
  now rewrite insert_desc_perm, IH.
Qed.

Lemma insert_desc_sorted (x : hline) (l : list hline) :
  StronglySorted longer_first l -> StronglySorted longer_first (insert_desc x l).
Proof.
  induction 1 as [| y l Hs IH Hy]; cbn [insert_desc].
  - repeat constructor.
  - destruct (hline_length y <=? hline_length x) eqn:E.
    + apply Z.leb_le in E. constructor; [now constructor |].
      constructor; [exact E |].
      eapply Forall_impl; [exact Hy |]. unfold longer_first. intros z Hz. lia.
    + apply Z.leb_gt in E. constructor; [exact IH |].
      rewrite insert_desc_perm. constructor; [| exact Hy].
      unfold longer_first. lia.
Qed.

Lemma sort_desc_sorted (l : list hline) : StronglySorted longer_first (sort_desc l).
Proof.
  unfold sort_desc. induction l as [| x l IH]; cbn [foldr]; [constructor |].
  now apply insert_desc_sorted.
Qed.

Lemma sorted_take_drop (n : nat) (l : list hline) :
  StronglySorted longer_first l ->
  StronglySorted longer_first (take n l)
  /\ forall c h, c ∈ take n l -> h ∈ drop n l -> longer_first c h.
Proof.
  intros Hs. revert n. induction Hs as [| y l Hs IH Hy]; intros n.
  - rewrite take_nil, drop_nil. split; [constructor |].
    intros c h Hc. inversion Hc.
  - destruct n as [| n]; cbn [take drop].
    + split; [constructor |]. intros c h Hc. inversion Hc.
    + destruct (IH n) as [IH1 IH2]. split.
      * constructor; [exact IH1 |].
        rewrite Forall_forall in Hy |- *. intros z Hz. apply Hy.
        now apply (subseteq_take n l).
      * intros c h Hc Hh. apply elem_of_cons in Hc as [-> | Hc].
        -- rewrite Forall_forall in Hy. apply Hy.
           now apply (subseteq_drop n l).
        -- now apply IH2.
Qed.

(** The candidates [find_graphic_scale_bar] examines are at most five
    segments, each one a detected segment less than 5 pixels off the
    horizontal and more than 50 pixels long, in order of decreasing
    length; no kept segment left out is longer than one examined; and
    sorting loses and invents no segment. *)
Theorem scale_bar_candidates (lines : list bbox) :
  (length (take 5 (sort_desc (horizontal_lines lines))) <= 5)%nat
  /\ (forall h, h ∈ take 5 (sort_desc (horizontal_lines lines)) ->
               kept_segment lines h)
  /\ StronglySorted longer_first (take 5 (sort_desc (horizontal_lines lines)))
  /\ (forall c h,
        c ∈ take 5 (sort_desc (horizontal_lines lines)) ->
        h ∈ drop 5 (sort_desc (horizontal_lines lines)) ->
        hline_length h <= hline_length c)
  /\ (forall h, h ∈ sort_desc (horizontal_lines lines) <-> kept_segment lines h)
  /\ length (sort_desc (horizontal_lines lines))
     = length (horizontal_lines lines).
Proof.
  pose proof (sort_desc_sorted (horizontal_lines lines)) as Hs.
  destruct (sorted_take_drop 5 _ Hs) as [H1 H2].
  assert (Hmem : forall h, h ∈ sort_desc (horizontal_lines lines)
                           <-> kept_segment lines h).
  { intros h. rewrite (sort_desc_perm (horizontal_lines lines)).
    apply horizontal_lines_spec. }
  split; [rewrite length_take; lia |].
  split; [intros h Hh; apply Hmem; now apply (subseteq_take 5 _) |].
  split; [exact H1 |]. split; [exact H2 |]. split; [exact Hmem |].
  now rewrite (sort_desc_perm (horizontal_lines lines)).
Qed.
End ScaleBarCandidates.

(** ** Unit conversion *)

Section UnitConversion.
Import PyNum ScaleDetection.

Lemma convert_to_mm_cases (v : Q) (u : string) :
  (u = "mm"%string /\ convert_to_mm v u = Some v)
  \/ (u = "cm"%string /\ convert_to_mm v u = Some (v * 10)%Q)
  \/ (u = "m"%string /\ convert_to_mm v u = Some (v * 1000)%Q)
  \/ ((u = "ft"%string \/ u = "'"%string)
      /\ convert_to_mm v u = Some (v * (3048 # 10))%Q)
  \/ ((u = "in"%string \/ u = String dquote EmptyString)
      /\ convert_to_mm v u = Some (v * (254 # 10))%Q)
  \/ ((u ∉ ["mm"; "cm"; "m"; "ft"; "'"; "in"; String dquote EmptyString]%string)
      /\ convert_to_mm v u = None).
Proof.
  unfold convert_to_mm.
  destruct (String.eqb_spec u "mm");
    [left; split; [assumption | reflexivity] |].
  destruct (String.eqb_spec u "cm");
    [right; left; split; [assumption | reflexivity] |].
  destruct (String.eqb_spec u "m");
    [do 2 right; left; split; [assumption | reflexivity] |].
  destruct (String.eqb_spec u "ft");
    [do 3 right; left; split; [left; assumption | reflexivity] |].
  destruct (String.eqb_spec u "'");
    [do 3 right; left; split; [right; assumption | reflexivity] |].
  destruct (String.eqb_spec u "in");
    [do 4 right; left; split; [left; assumption | reflexivity] |].
  destruct (String.eqb_spec u (String dquote EmptyString));
    [do 4 right; left; split; [right; assumption | reflexivity] |].
  cbn [orb]. do 5 right. split; [| reflexivity].
  rewrite !not_elem_of_cons. repeat split; try assumption. apply not_elem_of_nil.
Qed.

(** [convert_to_mm] knows exactly the units mm, cm, m, ft, the
    apostrophe, in and the double quote, whatever the value; for those it
    scales the value by a fixed positive factor, so that a non-negative
    value stays non-negative and (in exact arithmetic) a metre is a hundred
    centimetres and a thousand millimetres and a foot is twelve inches;
    any other unit gives [None]. *)
Theorem convert_to_mm_units (v : Q) (u : string) :
  (is_Some (convert_to_mm v u)
   <-> u ∈ ["mm"; "cm"; "m"; "ft"; "'"; "in"; String dquote EmptyString]%string)
  /\ (forall r, convert_to_mm v u = Some r -> (0 <= v)%Q -> (0 <= r)%Q)
  /\ (forall k r, convert_to_mm v u = Some r ->
        exists r', convert_to_mm (k * v) u = Some r' /\ (r' == k * r)%Q)
  /\ (exists a b c,
        convert_to_mm v "m" = Some a
        /\ convert_to_mm (100 * v) "cm" = Some b
        /\ convert_to_mm (1000 * v) "mm" = Some c
        /\ (a == b)%Q /\ (b == c)%Q)
  /\ (exists a b,
        convert_to_mm v "ft" = Some a
        /\ convert_to_mm (12 * v) "in" = Some b
        /\ (a == b)%Q).
Proof.
  split; [| split; [| split; [| split]]].
  - destruct (convert_to_mm_cases v u)
      as [[-> ->] | [[-> ->] | [[-> ->] | [[[-> | ->] ->] | [[[-> | ->] ->] | [Hn ->]]]]]];
      try (split; [intros _; rewrite !elem_of_cons; tauto | intros _; eauto]).
    split; [intros [x Hx]; discriminate | intros Hin; contradiction].
  - intros r Hr Hv.
    destruct (convert_to_mm_cases v u)
      as [[_ H] | [[_ H] | [[_ H] | [[_ H] | [[_ H] | [_ H]]]]]];
      rewrite H in Hr; try discriminate; injection Hr as <-; lra.
  - intros k r Hr.
    destruct (convert_to_mm_cases v u)
      as [[E H] | [[E H] | [[E H] | [[E H] | [[E H] | [_ H]]]]]];
      rewrite H in Hr; try discriminate; injection Hr as <-;
      destruct (convert_to_mm_cases (k * v) u)
        as [[E' H'] | [[E' H'] | [[E' H'] | [[E' H'] | [[E' H'] | [Hn' H']]]]]];
      try (exfalso; (destruct E as [E | E] || idtac);
           (destruct E' as [E' | E'] || idtac);
           unfold dquote in *; congruence);
      try (exfalso; apply Hn'; (destruct E as [E | E] || idtac); subst u;
           rewrite !elem_of_cons; tauto);
      eexists; (split; [exact H' |]); ring.
  - eexists _, _, _. repeat (split; [reflexivity |]). split; ring.
  - eexists _, _. repeat (split; [reflexivity |]). ring.
Qed.
End UnitConversion.

(** ** Template detection: overlap test and invariants of a run *)

Section OverlapFacts.
Import PyNum DoorDetection.

(** [_box_overlap] does not depend on the order of its two boxes; a
    well-formed box overlaps itself; and well-formed boxes that share no
    area do not overlap. *)
Theorem box_overlap_symmetric (b1 b2 : bbox) :
  _box_overlap b1 b2 = _box_overlap b2 b1
  /\ (well_formed b1 -> _box_overlap b1 b1 = Ok true)
  /\ (well_formed b1 -> well_formed b2 -> inter_area b1 b2 = 0 ->
      _box_overlap b1 b2 = Ok false).
Proof.
  split; [| split].
  - destruct b1 as [[[x1 y1] x2] y2], b2 as [[[x1' y1'] x2'] y2'].
    unfold _box_overlap.
    rewrite (Z.max_comm x1' x1), (Z.max_comm y1' y1),
      (Z.min_comm x2' x2), (Z.min_comm y2' y2).
    destruct (_ || _); [reflexivity |].
    now rewrite (Z.add_comm ((x2' - x1') * (y2' - y1'))).
  - intros H1. rewrite (box_overlap_IoU b1 b1 H1 H1). f_equal.
    apply lt_true. unfold IoU.
    destruct b1 as [[[x1 y1] x2] y2]. unfold well_formed in H1.
    unfold inter_area, box_area.
    rewrite !Z.min_id, !Z.max_id, !Z.max_r by lia.
    replace ((x2 - x1) * (y2 - y1) + (x2 - x1) * (y2 - y1)
             - (x2 - x1) * (y2 - y1)) with ((x2 - x1) * (y2 - y1)) by lia.
    apply Qlt_shift_div_l.
    + change 0%Q with (inject_Z 0). rewrite <- Zlt_Qlt. nia.
    + assert (H : (0 < inject_Z ((x2 - x1) * (y2 - y1)))%Q).
      { change 0%Q with (inject_Z 0). rewrite <- Zlt_Qlt. nia. }
      lra.
  - intros H1 H2 Hz. rewrite (box_overlap_IoU b1 b2 H1 H2). f_equal.
    apply lt_false. unfold IoU. rewrite Hz.
    unfold Qdiv. rewrite Qmult_0_l. discriminate.
Qed.

Lemma box_overlap_symmetric_witness :
  _box_overlap (100, 100, 150, 150) (100, 100, 150, 150) = Ok true.
Proof.
  apply (proj1 (proj2
    (box_overlap_symmetric (100, 100, 150, 150) (100, 100, 150, 150)))).
  unfold well_formed. lia.
Defined.
End OverlapFacts.

Section RunInvariants.
Import PyNum DoorDetection.

(** What one merge keeps: a property of all accepted candidates that the
    hit has too, the positions, and the scores from below. *)
Lemma merge_hit_invariant (P : candidate -> Prop) (new_box : bbox) (v : Q) :
  well_formed new_box -> P (hit new_box v) ->
  forall doors : list candidate,
    Forall (fun c => well_formed (c_bbox c)) doors ->
    Forall P doors ->
    exists doors',
      merge_hit new_box v doors = Ok doors'
      /\ Forall (fun c => well_formed (c_bbox c)) doors'
      /\ Forall P doors'
      /\ (length doors <= length doors' <= S (length doors))%nat
      /\ (forall i c, doors !! i = Some c ->
            exists c', doors' !! i = Some c'
                       /\ (c_confidence c <= c_confidence c')%Q).
Proof.
  intros Hnew Hp doors. induction doors as [| d doors IH]; intros Hwf HP.
  - exists [hit new_box v]. cbn [merge_hit]. unfold hit.
    split; [reflexivity |]. split; [repeat constructor; exact Hnew |].
    split; [repeat constructor; exact Hp |]. split; [cbn; lia |].
    intros i c Hi. discriminate Hi.
  - apply Forall_cons in Hwf as [Hd Hwf]. apply Forall_cons in HP as [Pd HP].
    cbn [merge_hit]. rewrite (box_overlap_IoU _ _ Hnew Hd). cbn [bind].
    destruct (lt (1 # 2) _).
    + destruct (lt (c_confidence d) v) eqn:E.
      * eexists. split; [reflexivity |].
        split; [constructor; [exact Hnew | exact Hwf] |].
        split; [constructor; [exact Hp | exact HP] |].
        split; [cbn; lia |].
        intros [| i] c Hi; cbn in Hi |- *.
        -- injection Hi as <-. eexists. split; [reflexivity |].
           apply lt_true in E. cbn. lra.
        -- exists c. split; [exact Hi | apply Qle_refl].
      * eexists. split; [reflexivity |].
        split; [constructor; assumption |]. split; [constructor; assumption |].
        split; [cbn; lia |].
        intros i c Hi. exists c. split; [exact Hi | apply Qle_refl].
    + destruct (IH Hwf HP) as (doors' & Hm & Hwf' & HP' & Hlen & Hconf).
      rewrite Hm. cbn [bind]. eexists. split; [reflexivity |].
      split; [constructor; assumption |]. split; [constructor; assumption |].
      split; [cbn; lia |].
      intros [| i] c Hi; cbn in Hi |- *.
      * injection Hi as <-. eexists. split; [reflexivity | apply Qle_refl].
      * now apply Hconf.
Qed.

Lemma merge_hits_invariant (P : candidate -> Prop) (th tw : Z) :
  0 < th -> 0 < tw ->
  forall (hits : list (Z * Z * Q)) (doors : list candidate),
    Forall (fun h => P (hit (hit_box th tw (fst (fst h)) (snd (fst h))) (snd h)))
      hits ->
    Forall (fun c => well_formed (c_bbox c)) doors ->
    Forall P doors ->
    exists doors',
      merge_hits th tw hits doors = Ok doors'
      /\ Forall (fun c => well_formed (c_bbox c)) doors'
      /\ Forall P doors'
      /\ (length doors <= length doors' <= length doors + length hits)%nat
      /\ (forall i c, doors !! i = Some c ->
            exists c', doors' !! i = Some c'
                       /\ (c_confidence c <= c_confidence c')%Q).
Proof.
  intros Hh Hw hits. induction hits as [| [[x y] v] hits IH];
    intros doors Hhits Hwf HP.
  - exists doors. cbn [merge_hits]. split; [reflexivity |].
    split; [exact Hwf |]. split; [exact HP |]. split; [cbn; lia |].
    intros i c Hi. exists c. split; [exact Hi | apply Qle_refl].
  - apply Forall_cons in Hhits as [Hhit Hhits]. cbn [fst snd] in Hhit.
    cbn [merge_hits]. fold (hit_box th tw x y).
    destruct (merge_hit_invariant P (hit_box th tw x y) v
                (hit_box_well_formed th tw x y Hh Hw) Hhit doors Hwf HP)
      as (d1 & Hm & Hwf1 & HP1 & Hlen1 & Hc1).
    rewrite Hm. cbn [bind].
    destruct (IH d1 Hhits Hwf1 HP1) as (d2 & Hm2 & Hwf2 & HP2 & Hlen2 & Hc2).
    exists d2. split; [exact Hm2 |]. split; [exact Hwf2 |].
    split; [exact HP2 |]. split; [cbn [length]; lia |].
    intros i c Hi. destruct (Hc1 i c Hi) as (c1 & Hi1 & Hle1).
    destruct (Hc2 i c1 Hi1) as (c2 & Hi2 & Hle2).
    exists c2. split; [exact Hi2 | lra].
Qed.
End RunInvariants.

Section DetectInvariants.
Import PyNum DoorDetection.

Lemma raw_hits_spec (p : pass) (h : Z * Z * Q) :
  h ∈ raw_hits p <-> h ∈ response p /\ (threshold <= snd h)%Q.
Proof.
  unfold raw_hits. rewrite list_elem_of_filter, Qle_bool_iff. tauto.
Qed.

Lemma skip_test_fits (edges_h edges_w : Z) (p : pass) :
  (edges_h <? template_h p) || (edges_w <? template_w p) = false
  <-> fits edges_h edges_w p.
Proof.
  unfold fits. rewrite orb_false_iff, !Z.ltb_ge. reflexivity.
Qed.

Lemma detect_passes_invariant (P : candidate -> Prop) (edges_h edges_w : Z) :
  forall (passes : list pass) (doors : list candidate),
    Forall (fun p => 0 < template_h p /\ 0 < template_w p) passes ->
    (forall p x y v, p ∈ passes -> fits edges_h edges_w p ->
       (x, y, v) ∈ raw_hits p ->
       P (hit (hit_box (template_h p) (template_w p) x y) v)) ->
    Forall (fun c => well_formed (c_bbox c)) doors ->
    Forall P doors ->
    exists doors',
      detect_passes edges_h edges_w passes doors = Ok doors'
      /\ Forall (fun c => well_formed (c_bbox c)) doors'
      /\ Forall P doors'
      /\ (length doors <= length doors'
          <= length doors + length (concat (map raw_hits passes)))%nat
      /\ (forall i c, doors !! i = Some c ->
            exists c', doors' !! i = Some c'
                       /\ (c_confidence c <= c_confidence c')%Q).
Proof.
  induction passes as [| p passes IH]; intros doors Hpos Hhit Hwf HP.
  - exists doors. cbn. split; [reflexivity |]. split; [exact Hwf |].
    split; [exact HP |]. split; [lia |].
    intros i c Hi. exists c. split; [exact Hi | apply Qle_refl].
  - apply Forall_cons in Hpos as [[Hh Hw] Hpos].
    assert (Hhit' : forall q x y v, q ∈ passes -> fits edges_h edges_w q ->
              (x, y, v) ∈ raw_hits q ->
              P (hit (hit_box (template_h q) (template_w q) x y) v)).
    { intros q x y v Hq. apply Hhit. now apply list_elem_of_further. }
    cbn [detect_passes map concat]. rewrite length_app.
    destruct ((edges_h <? template_h p) || (edges_w <? template_w p)) eqn:E.
    + destruct (IH doors Hpos Hhit' Hwf HP) as (d' & Hd & Hwf' & HP' & Hlen & Hc).
      exists d'. split; [exact Hd |]. split; [exact Hwf' |].
      split; [exact HP' |]. split; [lia | exact Hc].
    + apply skip_test_fits in E.
      destruct (merge_hits_invariant P (template_h p) (template_w p) Hh Hw
                  (raw_hits p) doors) as (d1 & Hm & Hwf1 & HP1 & Hlen1 & Hc1);
        [| exact Hwf | exact HP |].
      { rewrite Forall_forall. intros [[x y] v] Hin. cbn [fst snd].
        apply Hhit; [apply list_elem_of_here | exact E | exact Hin]. }
      rewrite Hm. cbn [bind].
      destruct (IH d1 Hpos Hhit' Hwf1 HP1) as (d2 & Hd & Hwf2 & HP2 & Hlen2 & Hc2).
      exists d2. split; [exact Hd |]. split; [exact Hwf2 |].
      split; [exact HP2 |]. split; [lia |].
      intros i c Hi. destruct (Hc1 i c Hi) as (c1 & Hi1 & Hle1).
      destruct (Hc2 i c1 Hi1) as (c2 & Hi2 & Hle2).
      exists c2. split; [exact Hi2 | lra].
Qed.

(** With templates of positive size, [TemplateDoorDetector.detect] never
    raises; every candidate it returns is a raw hit of a pass that fits
    the edge map, so its box is well formed and its confidence is at least
    0.6; and there are no more candidates than raw hits. *)
Theorem detect_returns_raw_hits (edges_h edges_w : Z) (passes : list pass) :
  Forall (fun p => 0 < template_h p /\ 0 < template_w p) passes ->
  exists doors,
    detect edges_h edges_w passes = Ok doors
    /\ Forall (fun c =>
                 well_formed (c_bbox c)
                 /\ (threshold <= c_confidence c)%Q
                 /\ exists p, p ∈ passes /\ fits edges_h edges_w p
                              /\ raw_hit_of p c) doors
    /\ (length doors <= length (concat (map raw_hits passes)))%nat.
Proof.
  intros Hpos.
  destruct (detect_passes_invariant
              (fun c => (threshold <= c_confidence c)%Q
                        /\ exists p, p ∈ passes /\ fits edges_h edges_w p
                                     /\ raw_hit_of p c)
              edges_h edges_w passes [] Hpos)
    as (doors & Hd & Hwf & HP & Hlen & _).
  - intros p x y v Hp Hfit Hin. apply raw_hits_spec in Hin as [Hin Hv].
    cbn [snd] in Hv. split; [exact Hv |].
    exists p. split; [exact Hp |]. split; [exact Hfit |].
    exists x, y, v. auto.
  - constructor.
  - constructor.
  - exists doors. split; [exact Hd |]. split; [| cbn in Hlen; lia].
    rewrite Forall_forall in Hwf, HP |- *. intros c Hc.
    split; [now apply Hwf | now apply HP].
Qed.

Lemma detect_returns_raw_hits_witness :
  exists doors,
    detect 800 1000 [Fixtures.frame_pass] = Ok doors
    /\ (length doors <= length (concat (map raw_hits [Fixtures.frame_pass])))%nat.
Proof.
  destruct (detect_returns_raw_hits 800 1000 [Fixtures.frame_pass])
    as (doors & Hd & _ & Hlen).
  - repeat constructor.
  - exists doors. split; [exact Hd | exact Hlen].
Defined.

(** Through the rest of a run an accepted candidate keeps its place in
    the list and its score never decreases: after any further passes, the
    entry at each position already filled has a score at least as high. *)
Theorem accepted_scores_never_decrease
    (edges_h edges_w : Z) (passes : list pass) (doors : list candidate) :
  Forall (fun p => 0 < template_h p /\ 0 < template_w p) passes ->
  Forall (fun c => well_formed (c_bbox c)) doors ->
  exists doors',
    detect_passes edges_h edges_w passes doors = Ok doors'
    /\ (length doors <= length doors')%nat
    /\ (forall i c, doors !! i = Some c ->
          exists c', doors' !! i = Some c'
                     /\ (c_confidence c <= c_confidence c')%Q).
Proof.
  intros Hpos Hwf.
  destruct (detect_passes_invariant (fun _ => True) edges_h edges_w passes doors
              Hpos) as (doors' & Hd & _ & _ & Hlen & Hc).
  - intros; exact I.
  - exact Hwf.
  - rewrite Forall_forall. intros; exact I.
  - exists doors'. split; [exact Hd |]. split; [lia | exact Hc].
Qed.

Lemma accepted_scores_never_decrease_witness :
  exists doors',
    detect_passes 800 1000 [Fixtures.frame_pass]
      [hit (100, 100, 150, 150) (65 # 100)] = Ok doors'
    /\ (1 <= length doors')%nat.
Proof.
  destruct (accepted_scores_never_decrease 800 1000 [Fixtures.frame_pass]
              [hit (100, 100, 150, 150) (65 # 100)])
    as (doors' & Hd & Hlen & _).
  - repeat constructor.
  - repeat constructor.
  - exists doors'. split; [exact Hd | exact Hlen].
Defined.

(** A pass whose template is larger than the edge map, or whose responses
    are all below 0.6, leaves the result as if the pass were not there. *)
Theorem idle_pass_changes_nothing
    (edges_h edges_w : Z) (before after : list pass) (p : pass)
    (doors : list candidate) :
  ~ fits edges_h edges_w p
  \/ Forall (fun h => (snd h < threshold)%Q) (response p) ->
  detect_passes edges_h edges_w (before ++ p :: after) doors
  = detect_passes edges_h edges_w (before ++ after) doors.
Proof.
  intros Hidle. revert doors.
  induction before as [| q before IH]; intros doors; cbn [app detect_passes].
  - destruct ((edges_h <? template_h p) || (edges_w <? template_w p)) eqn:E;
      [reflexivity |].
    apply skip_test_fits in E. destruct Hidle as [Hn | Hlow]; [contradiction |].
    assert (Hnone : raw_hits p = []).
    { unfold raw_hits. induction Hlow as [| h hs Hh _ IHl]; [reflexivity |].
      rewrite filter_cons_False; [exact IHl |].
      rewrite Qle_bool_iff. lra. }
    now rewrite Hnone.
  - destruct (_ || _); [apply IH |].
    destruct (merge_hits _ _ _ doors) as [d1 | e]; cbn [bind];
      [apply IH | reflexivity].
Qed.

Lemma idle_pass_changes_nothing_witness :
  detect_passes 40 40 ([] ++ Fixtures.frame_pass :: []) []
  = detect_passes 40 40 ([] ++ []) [].
Proof.
  apply (idle_pass_changes_nothing 40 40 [] [] Fixtures.frame_pass []).
  left. unfold fits. cbn. lia.
Defined.
End DetectInvariants.

(** ** The page loop: pages are independent *)

Section PageLoopFurther.
Import Measurement Cli.
Context `{V : Vision}.
Variable path : Type.
Variable imread : path -> option image.
Variable path_name : path -> string.
Variable hough_lines : image -> option (list (Q * Q)).
Variable histogram : list Q -> list Z.
Variable abs_cos abs_sin : Q -> Q.
Variable warpAffine : image -> Preprocessing.Rotation -> image.
Variable page_text : image -> list ascii.
Variable hough_lines_p : image -> option (list bbox).
Variable band_text : image -> Z -> Z -> Z -> Z -> list ascii.
Variable detect : image -> result (list door_dict).
Variable create_visual_report : image -> list door_dict -> Q -> result unit.
Variable min_width_mm : Q.

Let page_result :=
  process_page path imread path_name hough_lines histogram abs_cos abs_sin warpAffine
    page_text hough_lines_p band_text detect create_visual_report
    min_width_mm.
Let pages_from :=
  process_pages path imread path_name hough_lines histogram abs_cos abs_sin warpAffine
    page_text hough_lines_p band_text detect create_visual_report
    min_width_mm.
Let pdf :=
  process_pdf path imread path_name hough_lines histogram abs_cos abs_sin warpAffine
    page_text hough_lines_p band_text detect create_visual_report
    min_width_mm.

Lemma process_pages_by_page (pages : list path) :
  forall (i : Z) (d : list door_dict) (l : list log_event),
    pages_from i pages d l
    = (d ++ concat (imap (fun k p => page_records (page_result (i + Z.of_nat k) p))
                      pages),
       l ++ concat (imap (fun k p => page_log (i + Z.of_nat k)
                                       (page_result (i + Z.of_nat k) p))
                      pages)).
Proof.
  unfold pages_from, page_result.
  induction pages as [| p pages IH]; intros i d l.
  - cbn. now rewrite !app_nil_r.
  - cbn [process_pages]. rewrite !imap_cons. cbn [concat].
    rewrite Z.add_0_r.
    assert (Hshift : forall (A : Type) (f : Z -> path -> list A),
              imap ((fun k q => f (i + Z.of_nat k) q) ∘ S) pages
              = imap (fun k q => f (i + 1 + Z.of_nat k) q) pages).
    { intros A f. apply imap_ext. intros k q _. cbn. f_equal. lia. }
    rewrite (Hshift _ (fun j q => page_records (process_page _ _ _ _ _ _ _ _ _ _ _ _ _ _ j q))).
    rewrite (Hshift _ (fun j q => page_log j (process_page _ _ _ _ _ _ _ _ _ _ _ _ _ _ j q))).
    destruct (process_page _ _ _ _ _ _ _ _ _ _ _ _ _ _ i p) as [[ds |] | e];
      rewrite IH; cbn [page_records page_log app]; now rewrite <- ?app_assoc.
Qed.

Lemma concat_imap_short {B : Type} (pages : list path) :
  forall f : nat -> path -> list B,
    (forall k p, (length (f k p) <= 1)%nat) ->
    (length (concat (imap f pages)) <= length pages)%nat.
Proof.
  induction pages as [| p pages IH]; intros f Hf; [cbn; lia |].
  rewrite imap_cons. cbn [concat length]. rewrite length_app.
  specialize (IH (f ∘ S) (fun k q => Hf (S k) q)).
  specialize (Hf 0%nat p). lia.
Qed.

(** The pages of a document do not influence one another: the records
    [process_pdf] returns are the records of each page in page order, and
    its log the log lines of each page in page order, each page being
    processed with its own number.  Each page either adds its records or
    leaves exactly one log line, never both. *)
Theorem process_pdf_by_page (pages : list path) :
  pdf pages
  = (concat (imap (fun k p => page_records (page_result (Z.of_nat k) p)) pages),
     concat (imap (fun k p => page_log (Z.of_nat k) (page_result (Z.of_nat k) p))
               pages))
  /\ (forall k p,
        pages !! k = Some p ->
        (exists ds, page_result (Z.of_nat k) p = Ok (Some ds)
                    /\ page_log (Z.of_nat k) (page_result (Z.of_nat k) p) = [])
        \/ (page_records (page_result (Z.of_nat k) p) = []
            /\ length (page_log (Z.of_nat k) (page_result (Z.of_nat k) p)) = 1%nat))
  /\ (length (snd (pdf pages)) <= length pages)%nat.
Proof.
  assert (Hpdf : pdf pages
    = (concat (imap (fun k p => page_records (page_result (Z.of_nat k) p)) pages),
       concat (imap (fun k p => page_log (Z.of_nat k) (page_result (Z.of_nat k) p))
                 pages))).
  { unfold pdf, process_pdf.
    pose proof (process_pages_by_page pages 0 [] []) as H.
    unfold pages_from in H. rewrite H. cbn [app]. reflexivity. }
  split; [exact Hpdf |]. split.
  - intros k p _. destruct (page_result (Z.of_nat k) p) as [[ds |] | e].
    + left. exists ds. split; reflexivity.
    + right. split; reflexivity.
    + right. split; reflexivity.
  - rewrite Hpdf. cbn [snd]. apply concat_imap_short.
    intros k p. destruct (page_result (Z.of_nat k) p) as [[ds |] | e]; cbn; lia.
Qed.
Lemma refine_ok_keys (img : image) (door m : door_dict) (s t : Q) :
  refine_door_measurement img door s t = Ok m ->
  is_Some (m !! "width_mm") /\ is_Some (m !! "is_compliant")
  /\ exists b, m !! "bbox" = Some (VBox b).
Proof.
  destruct (door !! "bbox") as [[| | | | b] |] eqn:Hb;
    try (unfold refine_door_measurement; rewrite Hb; discriminate).
  rewrite (refine_cases img door b s t Hb).
  destruct (_ || _).
  - destruct (baseline_records door b s t Hb) as (r & Hr & [Hw Hc] & _ & Hbox).
    rewrite Hr. intros [= <-]. rewrite Hw, Hc. eauto.
  - intros [= <-]. unfold refined_measurement.
    destruct (refined_record_lookups door
                (refined_width_px (to_gray (door_region img b))
                   (adaptiveThreshold (to_gray (door_region img b)))
                   (orientation_deg (region_moments img b)))
                (orientation_deg (region_moments img b)) s t) as [[Hw Hc] _].
    rewrite Hw, Hc. split; [eauto |]. split; [eauto |].
    exists b. unfold refined_record. now rewrite !lookup_insert_ne by done.
Qed.

Lemma map_result_elem {A B} (f : A -> result B) (l : list A) :
  forall (bs : list B) (b : B),
    Reporting.map_result f l = Ok bs -> b ∈ bs ->
    exists a, a ∈ l /\ f a = Ok b.
Proof.
  induction l as [| a l IH]; intros bs b; cbn [Reporting.map_result].
  - intros [= <-] Hb. inversion Hb.
  - destruct (f a) as [b0 | e] eqn:Ea; [| discriminate]. cbn [bind].
    destruct (Reporting.map_result f l) as [bs0 | e]; [| discriminate].
    cbn [bind]. intros [= <-] Hb.
    apply elem_of_cons in Hb as [-> | Hb].
    + exists a. split; [apply list_elem_of_here | exact Ea].
    + destruct (IH bs0 b eq_refl Hb) as (a' & Ha' & Hf).
      exists a'. split; [now apply list_elem_of_further | exact Hf].
Qed.

Lemma elem_of_concat_imap {B : Type} (pages : list path) (b : B) :
  forall f : nat -> path -> list B,
    b ∈ concat (imap f pages) ->
    exists k p, pages !! k = Some p /\ b ∈ f k p.
Proof.
  induction pages as [| p pages IH]; intros f; [intros H; inversion H |].
  rewrite imap_cons. cbn [concat]. rewrite elem_of_app. intros [H | H].
  - exists 0%nat, p. split; [reflexivity | exact H].
  - destruct (IH (f ∘ S) H) as (k & q & Hk & Hb).
    exists (S k), q. split; [exact Hk | exact Hb].
Qed.

(** Every record [process_pdf] returns comes from one of the pages and
    carries that page's file name under [page], its number (counted from
    1) under [page_number], a bounding box, a [width_mm] and an
    [is_compliant]. *)
Theorem returned_records_are_complete (pages : list path) (r : door_dict) :
  r ∈ fst (pdf pages) ->
  exists k p b,
    pages !! k = Some p
    /\ r !! "page" = Some (VStr (path_name p))
    /\ r !! "page_number" = Some (VInt (Z.of_nat k + 1))
    /\ 1 <= Z.of_nat k + 1 <= Z.of_nat (length pages)
    /\ r !! "bbox" = Some (VBox b)
    /\ is_Some (r !! "width_mm")
    /\ is_Some (r !! "is_compliant").
Proof.
  unfold pdf, process_pdf.
  pose proof (process_pages_by_page pages 0 [] []) as H.
  unfold pages_from in H. rewrite H. cbn [fst app]. clear H.
  intros Hr. apply elem_of_concat_imap in Hr as (k & p & Hk & Hr).
  rewrite Z.add_0_l in Hr. unfold page_result, process_page in Hr.
  destruct (imread p) as [img |]; [| inversion Hr].
  destruct (deskew_image _ _ _ _ _ img) as [deskewed angle].
  destruct (detect_scale _ _ _ deskewed) as [[scale |] | e];
    cbn [bind page_records] in Hr; try (inversion Hr; fail).
  destruct (detect deskewed) as [doors | e];
    cbn [bind page_records] in Hr; [| inversion Hr].
  destruct (Reporting.map_result _ doors) as [ds | e] eqn:Em;
    cbn [bind page_records] in Hr; [| inversion Hr].
  destruct (create_visual_report deskewed ds min_width_mm);
    cbn [bind page_records] in Hr; [| inversion Hr].
  destruct (map_result_elem _ _ _ _ Em Hr) as (door & _ & Hdoor).
  unfold measure_door in Hdoor.
  destruct (refine_door_measurement deskewed door scale min_width_mm)
    as [m | e] eqn:Er; [| discriminate]. cbn [bind] in Hdoor.
  injection Hdoor as <-.
  destruct (refine_ok_keys _ _ _ _ _ Er) as (Hw & Hc & b & Hb).
  exists k, p, b. split; [exact Hk |].
  split; [rewrite lookup_insert_ne by done; apply lookup_insert_eq |].
  split; [apply lookup_insert_eq |].
  split; [apply lookup_lt_Some in Hk; lia |].
  now rewrite !lookup_insert_ne by done.
Qed.

(** A page whose processing raises (an unreadable image raises
    [FileNotFoundError]) adds no record and one error line with its page
    number; the pages before and after it give what they would give
    without it, the later ones keeping their numbers. *)
Theorem failing_page_is_logged
    (pre post : list path) (p : path) (e : exn) :
  page_result (Z.of_nat (length pre)) p = Raise e ->
  (forall i q, imread q = None -> page_result i q = Raise FileNotFoundError)
  /\ fst (pdf (pre ++ p :: post))
     = fst (pdf pre)
       ++ fst (pages_from (Z.of_nat (length pre) + 1) post [] [])
  /\ snd (pdf (pre ++ p :: post))
     = snd (pdf pre)
       ++ ErrorPage (Z.of_nat (length pre) + 1) e
          :: snd (pages_from (Z.of_nat (length pre) + 1) post [] []).
Proof.
  intros Hfail. split.
  - intros i q Hq. unfold page_result, process_page. now rewrite Hq.
  - unfold pdf, process_pdf, pages_from, page_result in *.
    rewrite (process_pages_app path imread path_name hough_lines histogram abs_cos
               abs_sin warpAffine page_text hough_lines_p band_text detect
               create_visual_report min_width_mm pre (p :: post) 0 [] []).
    rewrite Z.add_0_l. cbn [process_pages]. rewrite Hfail.
    rewrite (process_pages_acc path imread path_name hough_lines histogram abs_cos
               abs_sin warpAffine page_text hough_lines_p band_text detect
               create_visual_report min_width_mm post
               (Z.of_nat (length pre) + 1)).
    cbn [fst snd]. split; [reflexivity |]. now rewrite <- app_assoc.
Qed.
End PageLoopFurther.

Section PageLoopFurtherExamples.
Import Measurement Cli Fixtures.

Lemma returned_records_are_complete_witness :
  exists k p b,
    [1; 2; 3]%nat !! k = Some p
    /\ hd ∅ (fst (run_pdf read_page [1; 2; 3]%nat)) !! "page_number"
       = Some (VInt (Z.of_nat k + 1))
    /\ hd ∅ (fst (run_pdf read_page [1; 2; 3]%nat)) !! "bbox" = Some (VBox b).
Proof.
  destruct (@returned_records_are_complete table_vision nat read_page
              (fun _ => "page.png"%string)
              (fun _ => None) (fun _ => []) (fun a => a) (fun a => a)
       (fun img _ => img)
              text_on (fun _ => None) (fun _ _ _ _ _ => [])
              (fun _ => Ok [door_at (100, 100, 140, 220)]) (fun _ _ _ => Ok tt)
              900 [1; 2; 3]%nat
              (hd ∅ (fst (run_pdf read_page [1; 2; 3]%nat))))
    as (k & p & b & Hk & _ & Hn & _ & Hb & _).
  - vm_compute. apply list_elem_of_here.
  - exists k, p, b. split; [exact Hk |]. split; [exact Hn | exact Hb].
Defined.

Lemma failing_page_is_logged_witness :
  snd (run_pdf read_page_or_fail [1; 2; 3]%nat)
  = snd (run_pdf read_page_or_fail [1%nat])
    ++ ErrorPage 2 FileNotFoundError
       :: snd (@process_pages table_vision nat read_page_or_fail
                 (fun _ => "page.png"%string)
                 (fun _ => None) (fun _ => []) (fun a => a) (fun a => a)
       (fun img _ => img)
                 text_on (fun _ => None) (fun _ _ _ _ _ => [])
                 (fun _ => Ok [door_at (100, 100, 140, 220)])
                 (fun _ _ _ => Ok tt) 900 2 [3%nat] [] []).
Proof.
  refine (proj2 (proj2
    (@failing_page_is_logged table_vision nat read_page_or_fail
       (fun _ => "page.png"%string)
       (fun _ => None) (fun _ => []) (fun a => a) (fun a => a)
       (fun img _ => img)
       text_on (fun _ => None) (fun _ _ _ _ _ => [])
       (fun _ => Ok [door_at (100, 100, 140, 220)]) (fun _ _ _ => Ok tt)
       900 [1%nat] [3%nat] 2%nat FileNotFoundError _))).
  reflexivity.
Defined.
End PageLoopFurtherExamples.

(** ** Reports *)

Section ReportFacts.
Import PyNum Reporting.

Lemma map_result_ok {A B} (f : A -> result B) (l : list A) :
  Forall (fun a => exists b, f a = Ok b) l ->
  exists bs, map_result f l = Ok bs
             /\ length bs = length l
             /\ forall i a, l !! i = Some a ->
                   exists b, bs !! i = Some b /\ f a = Ok b.
Proof.
  induction 1 as [| a l [b Hb] _ (bs & Hbs & Hlen & Hpt)]; cbn [map_result].
  - exists []. split; [reflexivity |]. split; [reflexivity |].
    intros i a Hi. discriminate Hi.
  - rewrite Hb, Hbs. cbn [bind]. exists (b :: bs).
    split; [reflexivity |]. split; [cbn; now rewrite Hlen |].
    intros [| i] a' Hi; cbn in Hi |- *.
    + injection Hi as <-. eauto.
    + now apply Hpt.
Qed.

Lemma map_result_raises {A B} (f : A -> result B) (l : list A) (e : exn) :
  Forall (fun a => (exists b, f a = Ok b) \/ f a = Raise e) l ->
  Exists (fun a => f a = Raise e) l ->
  map_result f l = Raise e.
Proof.
  induction 1 as [| a l Ha _ IH]; intros Hex; [inversion Hex |].
  cbn [map_result]. destruct Ha as [[b Hb] | Hr].
  - rewrite Hb. cbn [bind].
    apply Exists_cons in Hex as [Hex | Hex]; [congruence |].
    now rewrite (IH Hex).
  - now rewrite Hr.
Qed.

Lemma csv_row_of_cases (door : door_dict) :
  (forall x1 y1 x2 y2,
      door !! "bbox" = Some (VBox (x1, y1, x2, y2)) ->
      exists row, csv_row_of door = Ok row
                  /\ row_x row = x1 /\ row_y row = y1
                  /\ row_width_mm row = get door "width_mm" (VInt 0)
                  /\ row_is_compliant row
                     = get door "is_compliant" (VBool false))
  /\ (door !! "bbox" = None -> csv_row_of door = Raise KeyError).
Proof.
  unfold csv_row_of, bbox_coord. split.
  - intros x1 y1 x2 y2 Hb. rewrite Hb. cbn [bind]. eexists.
    split; [reflexivity |]. cbn. repeat split.
  - intros Hb. now rewrite Hb.
Qed.

(** [create_csv_report] writes one row per door, in the order of the
    doors, with the first corner of the box as [x] and [y], when every
    door has a box; one door without [bbox] among doors that have one
    makes the whole report raise [KeyError]. *)
Theorem create_csv_report_rows (doors : list door_dict) :
  (Forall (fun door => exists b, door !! "bbox" = Some (VBox b)) doors ->
   exists rows,
     create_csv_report doors = Ok rows
     /\ length rows = length doors
     /\ forall i door x1 y1 x2 y2,
           doors !! i = Some door ->
           door !! "bbox" = Some (VBox (x1, y1, x2, y2)) ->
           exists row, rows !! i = Some row
                       /\ row_x row = x1 /\ row_y row = y1
                       /\ row_width_mm row = get door "width_mm" (VInt 0))
  /\ (Forall (fun door => (exists b, door !! "bbox" = Some (VBox b))
                          \/ door !! "bbox" = None) doors ->
      Exists (fun door => door !! "bbox" = None) doors ->
      create_csv_report doors = Raise KeyError).
Proof.
  unfold create_csv_report. split.
  - intros Hall.
    destruct (map_result_ok csv_row_of doors) as (rows & Hr & Hlen & Hpt).
    { eapply Forall_impl; [exact Hall |].
      intros door [[[[x1 y1] x2] y2] Hb].
      destruct (proj1 (csv_row_of_cases door) _ _ _ _ Hb) as (row & Hrow & _).
      eauto. }
    exists rows. split; [exact Hr |]. split; [exact Hlen |].
    intros i door x1 y1 x2 y2 Hi Hb.
    destruct (Hpt i door Hi) as (row & Hri & Hrow).
    destruct (proj1 (csv_row_of_cases door) _ _ _ _ Hb)
      as (row' & Hrow' & Hx & Hy & Hw & _).
    assert (row' = row) as -> by congruence.
    exists row. auto.
  - intros Hall Hex. apply map_result_raises.
    + eapply Forall_impl; [exact Hall |].
      intros door [[[[[x1 y1] x2] y2] Hb] | Hn].
      * left. destruct (proj1 (csv_row_of_cases door) _ _ _ _ Hb)
          as (row & Hrow & _). eauto.
      * right. now apply csv_row_of_cases.
    + eapply Exists_impl; [exact Hex |].
      intros door Hn. now apply csv_row_of_cases.
Qed.

Lemma count_compliant_range (doors : list door_dict) :
  0 <= count_compliant doors <= Z.of_nat (length doors).
Proof.
  unfold count_compliant.
  pose proof (length_filter
    (fun door => truthy (get door "is_compliant" (VBool false)) = true) doors).
  lia.
Qed.

(** The summary block [create_json_report] builds adds up: the
    compliant and non-compliant counts are not negative and sum to the
    total, the percentage lies between 0 and 100, a report on no door
    has all three counts and the percentage 0 (no division takes
    place), and a door without [is_compliant] counts as non-compliant. *)
Theorem json_summary_adds_up (doors : list door_dict) (min_width_mm : Q) :
  total_doors (json_summary doors min_width_mm) = Z.of_nat (length doors)
  /\ compliant_doors (json_summary doors min_width_mm)
     + non_compliant_doors (json_summary doors min_width_mm)
     = total_doors (json_summary doors min_width_mm)
  /\ 0 <= compliant_doors (json_summary doors min_width_mm)
  /\ 0 <= non_compliant_doors (json_summary doors min_width_mm)
  /\ (0 <= compliance_percentage (json_summary doors min_width_mm) <= 100)%Q
  /\ (doors = [] ->
      compliant_doors (json_summary doors min_width_mm) = 0
      /\ non_compliant_doors (json_summary doors min_width_mm) = 0
      /\ compliance_percentage (json_summary doors min_width_mm) = 0%Q)
  /\ (Forall (fun door => door !! "is_compliant" = None) doors ->
      compliant_doors (json_summary doors min_width_mm) = 0).
Proof.
  pose proof (count_compliant_range doors) as Hc.
  unfold json_summary. cbn [total_doors compliant_doors
    non_compliant_doors compliance_percentage].
  split; [reflexivity |]. split; [lia |]. split; [lia |]. split; [lia |].
  split; [| split].
  - destruct (0 <? Z.of_nat (length doors)) eqn:E; [| split; discriminate].
    apply Z.ltb_lt in E.
    assert (Ht : (0 < inject_Z (Z.of_nat (length doors)))%Q).
    { change 0%Q with (inject_Z 0). now rewrite <- Zlt_Qlt. }
    assert (Hn : (0 <= inject_Z (count_compliant doors))%Q).
    { change 0%Q with (inject_Z 0). rewrite <- Zle_Qle. lia. }
    assert (Hle : (inject_Z (count_compliant doors)
                   <= inject_Z (Z.of_nat (length doors)))%Q).
    { rewrite <- Zle_Qle. lia. }
    set (c := inject_Z (count_compliant doors)) in *.
    set (t := inject_Z (Z.of_nat (length doors))) in *.
    assert (H0 : (0 <= c / t)%Q).
    { apply Qle_shift_div_l; [exact Ht | lra]. }
    assert (H1 : (c / t <= 1)%Q).
    { apply Qle_shift_div_r; [exact Ht | lra]. }
    assert (H0' : (0 <= b64 (c / t))%Q) by (now apply b64_nonneg).
    assert (H1' : (b64 (c / t) <= 1)%Q).
    { apply Qle_trans with (b64 1); [now apply b64_mono |].
      vm_compute. discriminate. }
    assert (H0m : (0 <= mul (b64 (c / t)) 100)%Q).
    { unfold mul. apply b64_nonneg. lra. }
    assert (H1m : (mul (b64 (c / t)) 100 <= 100)%Q).
    { unfold mul. apply Qle_trans with (b64 100); [apply b64_mono; lra |].
      vm_compute. discriminate. }
    split.
    + apply round1_ge; [exists 0; reflexivity | reflexivity | exact H0m].
    + apply round1_le;
        [exists 1000; reflexivity | vm_compute; reflexivity | exact H1m].
  - intros ->. repeat split.
  - intros Hall. unfold count_compliant. clear Hc.
    replace (filter _ doors) with (@nil door_dict); [reflexivity |].
    symmetry. induction Hall as [| door doors Hd _ IH]; [reflexivity |].
    rewrite filter_cons_False; [exact IH |].
    unfold get. rewrite Hd. cbn. discriminate.
Qed.
End ReportFacts.

(** ** The deskewed page *)

Section DeskewRange.
Import PyNum Preprocessing.
Variable image : Type.
Variable hough_lines : image -> option (list (Q * Q)).
Variable histogram : list Q -> list Z.
Variable degrees : Q -> Q.
Variable shape_hw : image -> Z * Z.
Variable abs_cos abs_sin : Q -> Q.
Variable warpAffine : image -> Rotation -> image.

Let deskew :=
  deskew_image image hough_lines histogram degrees shape_hw abs_cos abs_sin
    warpAffine.
Let rotation := rotation_for image shape_hw abs_cos abs_sin.

(** [deskew_image] returns the page itself with angle 0 when no line is
    detected or no detected line has its Hough angle strictly within 30
    degrees of 0 or of 90.  As soon as one line is kept the page goes
    through [cv2.warpAffine], whatever the angle: the angle returned is
    the one of the rotation matrix, the rotation is about
    [(width // 2, height // 2)] and the border is white. *)
Theorem deskew_image_outcomes (img : image) :
  ((hough_lines img = None
    \/ exists lines, hough_lines img = Some lines
                     /\ Forall (fun l => qualifies (snd l) = false) lines) ->
   deskew img = (img, 0%Q))
  /\ (forall lines,
        hough_lines img = Some lines ->
        Exists (fun l => qualifies (snd l) = true) lines ->
        exists a,
          deskew img = (warpAffine img (rotation img a), a)
          /\ a = fold_angle
                   (degrees
                      (dominant_angle (argmax (histogram (kept_angles lines)))))
          /\ angle (rotation img a) = a
          /\ center (rotation img a)
             = (snd (shape_hw img) / 2, fst (shape_hw img) / 2)
          /\ border (rotation img a) = (255, 255, 255)).
Proof.
  subst deskew rotation. unfold deskew_image. split.
  - intros [Hn | (lines & Hl & Hq)]; [now rewrite Hn |].
    rewrite Hl. destruct lines as [| l lines]; [reflexivity |].
    assert (Hk : kept_angles (l :: lines) = []).
    { unfold kept_angles. apply kept_none.
      apply Forall_fmap. exact Hq. }
    now rewrite Hk.
  - intros lines Hl Hex. rewrite Hl.
    assert (Hk : kept_angles lines <> []).
    { unfold kept_angles. intros Hnil.
      apply Exists_exists in Hex as (l & Hin & Hq).
      apply (filter_nil_not_elem_of _ _ (snd l) Hnil Hq).
      apply list_elem_of_fmap. exists l. split; [reflexivity | exact Hin]. }
    destruct lines as [| l lines]; [inversion Hex |].
    destruct (kept_angles (l :: lines)) as [| t ts] eqn:Ek;
      [contradiction |].
    eexists. split; [reflexivity |]. split; [reflexivity |].
    unfold rotation_for. destruct (shape_hw img) as [h w]. cbn.
    repeat split.
Qed.
End DeskewRange.

Section DeskewRangeExamples.
Import PyNum Preprocessing Fixtures.

Lemma deskew_image_outcomes_witness :
  deskew_lines [(100, 45); (200, 50)]%Q [] 0 = (tt, 0%Q).
Proof.
  refine (proj1
    (deskew_image_outcomes unit (fun _ => Some [(100, 45); (200, 50)]%Q)
       (fun _ => []) (fun _ => 0%Q) (fun _ => (800, 1000))
       (fun _ => 1%Q) (fun _ => 0%Q) (fun img _ => img) tt) _).
  right. eexists. split; [reflexivity |].
  repeat constructor.
Defined.
End DeskewRangeExamples.

